(** * terminalcodeAssistant: the agent loop of [agent.py]

    A shallow embedding of [CodeAssistantAgent] (agent.py): the option
    indexer [_format_with_numbers], the graph nodes [model_response] and
    [tool_use], the router [check_tool_use], the wiring of
    [_setup_workflow] and the interactive loop [run].
    Beside the agent the file embeds what the agent calls: the schema
    cleaner and the loader of tool/mcp_tools.py and the direct GitHub
    tools of tool/github_direct.py.

    Python values are modelled as follows.
    - [str] is a list of Unicode code points ([list N]).
    - [dict] with string keys ([self.last_options]) is a [gmap].
    - A node is a function in a state-and-exception monad over the
      process environment (console, outside world).
    - Exceptions come in two kinds, as the handlers of [run] distinguish
      them: instances of [Exception], and [KeyboardInterrupt]. *)

From stdpp Require Import gmap strings list fin_maps pretty.
From Stdlib Require Import NArith Ascii.

Set Default Proof Using "Type".

(** ** Python strings *)

Module PyStr.

Abbreviation pystr := (list N).

(** An ASCII literal of the source, as code points. *)
Definition lit (s : string) : pystr :=
  (λ a, N_of_ascii a) <$> String.list_ascii_of_string s.

(** [str(n)] for a non-negative [int]. *)
Definition str_of_nat (n : nat) : pystr := lit (pretty n).

Definition NL : N := 10.

(** [Py_UNICODE_ISSPACE]: the characters [str.strip()] removes and the
    regular expression class [\s] matches on [str] patterns. *)
Definition isspace (c : N) : bool :=
  (((9 <=? c) && (c <=? 13)) || ((28 <=? c) && (c <=? 32))
   || (c =? 133) || (c =? 160) || (c =? 5760)
   || ((8192 <=? c) && (c <=? 8202))
   || (c =? 8232) || (c =? 8233) || (c =? 8239) || (c =? 8287)
   || (c =? 12288))%N.

Fixpoint lstrip (s : pystr) : pystr :=
  match s with
  | c :: s' => if isspace c then lstrip s' else s
  | [] => []
  end.

Definition rstrip (s : pystr) : pystr := reverse (lstrip (reverse s)).

(** [s.strip()] *)
Definition strip (s : pystr) : pystr := rstrip (lstrip s).

(** [s.split(sep)] for a one-character separator: never empty. *)
Fixpoint split (sep : N) (s : pystr) : list pystr :=
  match s with
  | [] => [[]]
  | c :: s' =>
      if (c =? sep)%N then [] :: split sep s'
      else match split sep s' with
           | h :: t => (c :: h) :: t
           | [] => [[c]]
           end
  end.

(** [sep.join(parts)] *)
Fixpoint join (sep : pystr) (parts : list pystr) : pystr :=
  match parts with
  | [] => []
  | [p] => p
  | p :: rest => p ++ sep ++ join sep rest
  end.

Fixpoint startswith (s p : pystr) : bool :=
  match p, s with
  | [], _ => true
  | a :: p', b :: s' => (a =? b)%N && startswith s' p'
  | _ :: _, [] => false
  end.

(** [needle in hay] on strings. *)
Fixpoint contains (needle hay : pystr) : bool :=
  startswith hay needle ||
  match hay with
  | [] => false
  | _ :: hay' => contains needle hay'
  end.

Definition eqb (a b : pystr) : bool := bool_decide (a = b).

(** [s in [a, b, ...]] on a list of strings. *)
Definition in_list (s : pystr) (l : list pystr) : bool :=
  bool_decide (s ∈ l).

End PyStr.

Import PyStr.

(** ** The regular expression of the option indexer

    The pattern of [re.match] in [_format_with_numbers], written here
    with blanks between its parts, is

      ^ ( \s* ) [•\-\*] \s+ ( .+ ) $

    a sequence of character classes, each taken once or under a greedy
    star or plus, closed by the end anchor.
    [match_seq] is the backtracking matcher for such sequences; it
    returns the text consumed by every item of the sequence. *)

Module Re.

Inductive quant := One | Star | Plus.

Record item := Item { cls : N → bool; rep : quant }.

(** [$] without MULTILINE: the end of the text, or just before a
    newline that ends the text. *)
Definition at_end (s : pystr) : bool :=
  match s with
  | [] => true
  | [c] => (c =? NL)%N
  | _ => false
  end.

(** A greedy run of [p], longest first, giving characters back one at
    a time until the continuation [k] matches what is left. *)
Fixpoint greedy (p : N → bool) (k : pystr → option (list pystr))
    (s : pystr) : option (pystr * list pystr) :=
  match s with
  | c :: s' =>
      if p c then
        match greedy p k s' with
        | Some (w, r) => Some (c :: w, r)
        | None => (λ r, ([], r)) <$> k s
        end
      else (λ r, ([], r)) <$> k s
  | [] => (λ r, ([], r)) <$> k []
  end.

Fixpoint match_seq (items : list item) (s : pystr) : option (list pystr) :=
  match items with
  | [] => if at_end s then Some [] else None
  | it :: rest =>
      match rep it with
      | One =>
          match s with
          | c :: s' =>
              if cls it c then (λ r, [c] :: r) <$> match_seq rest s'
              else None
          | [] => None
          end
      | Star =>
          (λ wr, wr.1 :: wr.2) <$> greedy (cls it) (match_seq rest) s
      | Plus =>
          match s with
          | c :: s' =>
              if cls it c then
                (λ wr, (c :: wr.1) :: wr.2)
                  <$> greedy (cls it) (match_seq rest) s'
              else None
          | [] => None
          end
      end
  end.

(** [\s] *)
Definition space : N → bool := isspace.

(** [[•\-\*]]: U+2022, hyphen-minus, asterisk. *)
Definition bullet (c : N) : bool :=
  (c =? 8226)%N || (c =? 45)%N || (c =? 42)%N.

(** [.] without DOTALL: anything but a newline. *)
Definition dot (c : N) : bool := negb (c =? NL)%N.

(** The four items of the pattern; groups 1 and 2 are the first and
    the last. *)
Definition bullet_re : list item :=
  [Item space Star; Item bullet One; Item space Plus; Item dot Plus].

(** [bullet_match.group(1)] and [bullet_match.group(2)], or [None]. *)
Definition bullet_match (line : pystr) : option (pystr * pystr) :=
  match match_seq bullet_re line with
  | Some [indent; _; _; content] => Some (indent, content)
  | _ => None
  end.

End Re.

Import Re.

(** ** Messages (langchain_core.messages) *)

Definition Args : Type := list (pystr * pystr).

(** A tool invocation request: [{"name": ..., "args": ..., "id": ...}]. *)
Record ToolCall := { tc_name : pystr; tc_args : Args; tc_id : pystr }.

(** A content block of a response whose content is a list. *)
Inductive Block :=
| BlockObj (text : pystr)            (* an object with a [text] attribute *)
| BlockDict (text : option pystr)    (* a dict, with or without key 'text' *)
| BlockStr (s : pystr)
| BlockOther.

Inductive Content :=
| Text (s : pystr)
| Blocks (l : list Block).

Inductive Message :=
| SystemMessage (content : pystr)
| HumanMessage (content : pystr)
| AIMessage (content : Content) (tool_calls : list ToolCall)
| ToolMessage (content : pystr) (tool_call_id : pystr).

Definition message_content (m : Message) : Content :=
  match m with
  | SystemMessage c | HumanMessage c | ToolMessage c _ => Text c
  | AIMessage c _ => c
  end.

Definition is_system (m : Message) : bool :=
  match m with SystemMessage _ => true | _ => false end.

(** Truth value of [response.content]. *)
Definition content_truthy (c : Content) : bool :=
  match c with
  | Text s => negb (bool_decide (s = []))
  | Blocks l => negb (bool_decide (l = []))
  end.

(** ** Exceptions and outcomes *)

(** What a [raise] carries: an instance of [Exception] with its class
    name and [str(e)], or a [KeyboardInterrupt], which [except Exception]
    does not catch. *)
Inductive exn :=
| Exception (cls msg : pystr)
| KeyboardInterrupt.

Inductive outcome (A : Type) :=
| Ok (a : A)
| Raise (e : exn).
Arguments Ok {A} a.
Arguments Raise {A} e.

Definition IndexError : exn :=
  Exception (lit "IndexError") (lit "list index out of range").
Definition AttributeError (what : string) : exn :=
  Exception (lit "AttributeError") (lit what).
Definition KeyError (k : pystr) : exn := Exception (lit "KeyError") k.

(** What the console shows. *)
Inductive output :=
| Print (text : pystr)
| PrintArgs (args : Args)                          (* [Arguments: {tool_args}] *)
| Panel (body title : pystr)
| Traceback (e : exn)                              (* [traceback.format_exc()] *)
| HelpPanel
| ToolsTree (local_branch github_branch mcp_branch : list pystr).

(** ** The option indexer: [_format_with_numbers]

    The loop over the lines carries [self.last_options], [option_num] and
    [formatted_lines]. *)

Record fmt_state := FmtState {
  fmt_options : gmap pystr pystr;
  option_num : nat;
  formatted_lines : list pystr
}.

Definition numbered (indent : pystr) (n : nat) (content : pystr) : pystr :=
  indent ++ lit "**" ++ str_of_nat n ++ lit ".** " ++ content.

Definition fmt_line (st : fmt_state) (line : pystr) : fmt_state :=
  match bullet_match line with
  | Some (indent, content) =>
      FmtState (<[str_of_nat (option_num st) := content]> (fmt_options st))
               (option_num st + 1)
               (formatted_lines st ++ [numbered indent (option_num st) content])
  | None =>
      FmtState (fmt_options st) (option_num st) (formatted_lines st ++ [line])
  end.

Definition block_text (b : Block) : option pystr :=
  match b with
  | BlockObj t => Some t
  | BlockDict (Some t) => Some t
  | BlockStr s => Some s
  | BlockDict None | BlockOther => None
  end.

(** The text of a response content: a list of blocks is joined by
    newlines. *)
Definition content_text (c : Content) : pystr :=
  match c with
  | Text s => s
  | Blocks l => join [NL] (omap block_text l)
  end.

Definition tip (n : nat) : pystr :=
  [NL; NL] ++ lit "*Tip: Type a number (1-" ++ str_of_nat n
           ++ lit ") to select an option*".

(** The text returned and the new value of [self.last_options]; the old
    value is not read. *)
Definition format_text (text : pystr) : pystr * gmap pystr pystr :=
  let st := foldl fmt_line (FmtState ∅ 1 []) (split NL text) in
  let result := join [NL] (formatted_lines st) in
  let result :=
    if bool_decide (fmt_options st = ∅) then result
    else result ++ tip (size (fmt_options st)) in
  (result, fmt_options st).

(** ** The agent *)

Section Agent.

(** The world outside the process: the model backend, the file system,
    GitHub, the MCP subprocess. *)
Context {W : Type}.

(** The Python runtime and the libraries the agent calls. *)
Variable lower : pystr → pystr.           (* [str.lower] *)
Variable unicode_isdigit : N → bool.      (* [Py_UNICODE_ISDIGIT] *)
Variable getcwd : W → pystr.              (* [os.getcwd] *)
Variable path_join : pystr → pystr → pystr.   (* [os.path.join] *)
(** The step bound the graph library applies to a run whose config
    names none. *)
Variable DEFAULT_RECURSION_LIMIT : nat.

(** [s.isdigit()] *)
Definition isdigit (s : pystr) : bool :=
  negb (bool_decide (s = [])) && forallb unicode_isdigit s.

(** A tool handle. [invoke] and [ainvoke] return [str(result)] or
    raise; [tool_ident] stands for the identity of the object. *)
Record Tool := {
  tool_ident : nat;
  tool_name : pystr;
  tool_description : pystr;
  invoke : Args → W → outcome pystr * W;
  ainvoke : Args → W → outcome pystr * W
}.

(** The tools of tool/github_direct.py and tool/local_tools.py. *)
Variable quick_push_file push_folder create_github_repo : Tool.
Variable get_local_tools : list Tool.

Definition get_github_tools : list Tool :=
  [quick_push_file; push_folder; create_github_repo].

(** [self], with its console and the world it acts on. *)
Record Agent := {
  last_options : gmap pystr pystr;
  tools : list Tool;
  mcp_tools : list Tool;
  llm : list Tool → list Message → W → outcome (Content * list ToolCall) * W;
  bound_tools : list Tool;
  thread_id : pystr;
  checkpointer : gmap pystr (list Message);
  console : list output;
  world : W
}.

Definition set_last_options (v : gmap pystr pystr) (s : Agent) : Agent :=
  {| last_options := v; tools := tools s; mcp_tools := mcp_tools s;
     llm := llm s; bound_tools := bound_tools s; thread_id := thread_id s;
     checkpointer := checkpointer s; console := console s;
     world := world s |}.

Definition set_tools (v : list Tool) (s : Agent) : Agent :=
  {| last_options := last_options s; tools := v; mcp_tools := mcp_tools s;
     llm := llm s; bound_tools := bound_tools s; thread_id := thread_id s;
     checkpointer := checkpointer s; console := console s;
     world := world s |}.

Definition set_mcp_tools (v : list Tool) (s : Agent) : Agent :=
  {| last_options := last_options s; tools := tools s; mcp_tools := v;
     llm := llm s; bound_tools := bound_tools s; thread_id := thread_id s;
     checkpointer := checkpointer s; console := console s;
     world := world s |}.

Definition set_bound_tools (v : list Tool) (s : Agent) : Agent :=
  {| last_options := last_options s; tools := tools s;
     mcp_tools := mcp_tools s; llm := llm s; bound_tools := v;
     thread_id := thread_id s; checkpointer := checkpointer s;
     console := console s; world := world s |}.

Definition set_checkpointer (v : gmap pystr (list Message)) (s : Agent)
  : Agent :=
  {| last_options := last_options s; tools := tools s;
     mcp_tools := mcp_tools s; llm := llm s; bound_tools := bound_tools s;
     thread_id := thread_id s; checkpointer := v; console := console s;
     world := world s |}.

Definition set_console (v : list output) (s : Agent) : Agent :=
  {| last_options := last_options s; tools := tools s;
     mcp_tools := mcp_tools s; llm := llm s; bound_tools := bound_tools s;
     thread_id := thread_id s; checkpointer := checkpointer s;
     console := v; world := world s |}.

Definition set_world (v : W) (s : Agent) : Agent :=
  {| last_options := last_options s; tools := tools s;
     mcp_tools := mcp_tools s; llm := llm s; bound_tools := bound_tools s;
     thread_id := thread_id s; checkpointer := checkpointer s;
     console := console s; world := v |}.

(** *** Computations that read and write [self] and may raise *)

Definition M (A : Type) : Type := Agent → outcome A * Agent.

#[export] Instance M_ret : MRet M := λ A a s, (Ok a, s).

#[export] Instance M_bind : MBind M := λ A B f m s,
  match m s with
  | (Ok a, s') => f a s'
  | (Raise e, s') => (Raise e, s')
  end.

Definition get : M Agent := λ s, (Ok s, s).
Definition modify (f : Agent → Agent) : M unit := λ s, (Ok (), f s).
Definition raise {A} (e : exn) : M A := λ s, (Raise e, s).
Definition print (o : output) : M unit :=
  modify (λ s, set_console (console s ++ [o]) s).
Definition of_outcome {A} (r : outcome A) : M A := λ s, (r, s).

(** A call into the world. *)
Definition call {A} (f : W → outcome A * W) : M A := λ s,
  let '(r, w) := f (world s) in (r, set_world w s).

(** [try: body  except Exception as e: handler(str(e))] *)
Definition try_except {A} (body : M A) (handler : pystr → M A) : M A :=
  λ s,
    match body s with
    | (Raise (Exception _ msg), s') => handler msg s'
    | r => r
    end.

Definition _format_with_numbers (text : Content) : M pystr :=
  let '(result, options) := format_text (content_text text) in
  modify (set_last_options options) ;; mret result.

(** *** [model_response] *)

Definition system_message : Message :=
  SystemMessage (lit "You MUST call tools. NEVER just talk. For 'push folder': call push_folder(owner, repo, folder_path, branch, message). For 'push file': call quick_push_file(owner, repo, file_path, branch, message). DO NOT ask questions, CALL THE TOOL NOW.").

(** The first [if] of [model_response]: the list handed on as
    [messages]. [messages[0]] of an empty list raises. *)
Definition with_system_message (messages : list Message)
  : outcome (list Message) :=
  if bool_decide (length messages = 1) then Ok (system_message :: messages)
  else
    match messages with
    | [] => Raise IndexError
    | SystemMessage _ :: rest => Ok (system_message :: rest)
    | _ => Ok (system_message :: messages)
    end.

Definition action_words : list pystr :=
  [lit "push"; lit "upload"; lit "github"; lit "repo"].

Definition force_tool_suffix : pystr :=
  [NL; NL] ++ lit "[SYSTEM: You MUST call the appropriate tool NOW. Do not respond with text.]".

(** [messages[-1] = m] *)
Definition set_last (messages : list Message) (m : Message)
  : list Message :=
  <[pred (length messages) := m]> messages.

(** The rewrite of the trailing message when it names a GitHub
    action. [.lower()] of a content that is a list raises. *)
Definition force_tool_use (messages : list Message)
  : outcome (list Message) :=
  match last messages with
  | None => Raise IndexError
  | Some m =>
      match message_content m with
      | Text last_msg =>
          if existsb (λ word, contains word (lower last_msg)) action_words
          then Ok (set_last messages
                     (HumanMessage (last_msg ++ force_tool_suffix)))
          else Ok messages
      | Blocks _ =>
          Raise (AttributeError "'list' object has no attribute 'lower'")
      end
  end.

(** The messages the model receives for a state. *)
Definition prompt_messages (state : list Message) : outcome (list Message) :=
  match with_system_message state with
  | Ok messages => force_tool_use messages
  | Raise e => Raise e
  end.

Definition llm_with_tools (self : Agent)
  : list Message → W → outcome (Content * list ToolCall) * W :=
  llm self (bound_tools self).

Definition model_response (state : list Message) : M (list Message) :=
  messages ← of_outcome (prompt_messages state);
  self ← get;
  r ← call (llm_with_tools self messages);
  let response := AIMessage r.1 r.2 in
  (if content_truthy r.1 then
     formatted_content ← _format_with_numbers r.1;
     print (Panel formatted_content (lit "[bold cyan]Assistant[/bold cyan]"))
   else mret ()) ;;
  mret [response].

(** *** [tool_use] *)

(** [next((t for t in self.tools if t.name == tool_name), None)] *)
Definition find_tool (ts : list Tool) (name : pystr) : option Tool :=
  List.find (λ t, bool_decide (tool_name t = name)) ts.

(** [tool in self.mcp_tools] *)
Definition tool_in (t : Tool) (ts : list Tool) : bool :=
  existsb (λ t', Nat.eqb (tool_ident t') (tool_ident t)) ts.

(** The call of a tool: [await tool.ainvoke(tool_args)] for an MCP
    tool, [tool.invoke(tool_args)] for any other. *)
Definition invoke_tool (self : Agent) (tool : Tool) (tool_args : Args)
  : W → outcome pystr * W :=
  if tool_in tool (mcp_tools self) then ainvoke tool tool_args
  else invoke tool tool_args.

(** The body of the [for] loop: the message appended for one request. *)
Definition run_tool_call (tool_call : ToolCall) : M Message :=
  let name := tc_name tool_call in
  let tool_args := tc_args tool_call in
  print (Print ([NL] ++ lit "[bold yellow]Executing tool:[/bold yellow] [magenta]"
                  ++ name ++ lit "[/magenta]")) ;;
  print (PrintArgs tool_args) ;;
  self ← get;
  match find_tool (tools self) name with
  | Some tool =>
      try_except
        (result ← call (invoke_tool self tool tool_args);
         print (Panel result (lit "[bold green]Tool Result: " ++ name
                                ++ lit "[/bold green]")) ;;
         mret (ToolMessage result (tc_id tool_call)))
        (λ e,
           let error_msg := lit "Tool error: " ++ e in
           print (Print (lit "[bold red]" ++ error_msg ++ lit "[/bold red]")) ;;
           mret (ToolMessage error_msg (tc_id tool_call)))
  | None =>
      let error_msg := lit "Tool " ++ name ++ lit " not found" in
      print (Print (lit "[bold red]" ++ error_msg ++ lit "[/bold red]")) ;;
      mret (ToolMessage error_msg (tc_id tool_call))
  end.

(** The [for] loop, carrying [tool_messages]. *)
Fixpoint tool_loop (tool_calls : list ToolCall)
    (tool_messages : list Message) : M (list Message) :=
  match tool_calls with
  | [] => mret tool_messages
  | tool_call :: rest =>
      m ← run_tool_call tool_call;
      tool_loop rest (tool_messages ++ [m])
  end.

Definition tool_use (state : list Message) : M (list Message) :=
  match last state with
  | None => raise IndexError
  | Some (AIMessage _ tool_calls) => tool_loop tool_calls []
  | Some _ =>
      raise (AttributeError "object has no attribute 'tool_calls'")
  end.

(** *** [check_tool_use] and the graph of [_setup_workflow] *)

(** [langgraph.graph.END] *)
Definition END : pystr := lit "__end__".

(** [hasattr(last_message, "tool_calls") and last_message.tool_calls]:
    only an [AIMessage] has the attribute. *)
Definition check_tool_use (state : list Message) : outcome pystr :=
  match last state with
  | None => Raise IndexError
  | Some (AIMessage _ (_ :: _)) => Ok (lit "tool_use")
  | Some _ => Ok END
  end.

(** A graph under construction ([langgraph.graph.StateGraph]): what
    [add_node], [set_entry_point], [add_edge] and
    [add_conditional_edges] record. A node maps the state to an update
    of it; the path function of a conditional edge maps the state to a
    key of its path map. *)
Definition node_fn : Type := list Message → M (list Message).
Definition path_fn : Type := list Message → outcome pystr.

Record StateGraph := {
  nodes : list (pystr * node_fn);
  entry_point : option pystr;
  edges : list (pystr * pystr);
  branches : list (pystr * (path_fn * list (pystr * pystr)))
}.

Definition new_StateGraph : StateGraph :=
  {| nodes := []; entry_point := None; edges := []; branches := [] |}.

Definition add_node (name : pystr) (fn : node_fn) (g : StateGraph)
  : StateGraph :=
  {| nodes := nodes g ++ [(name, fn)]; entry_point := entry_point g;
     edges := edges g; branches := branches g |}.

Definition set_entry_point (name : pystr) (g : StateGraph) : StateGraph :=
  {| nodes := nodes g; entry_point := Some name;
     edges := edges g; branches := branches g |}.

Definition add_edge (src dst : pystr) (g : StateGraph) : StateGraph :=
  {| nodes := nodes g; entry_point := entry_point g;
     edges := edges g ++ [(src, dst)]; branches := branches g |}.

Definition add_conditional_edges (src : pystr) (path : path_fn)
    (path_map : list (pystr * pystr)) (g : StateGraph) : StateGraph :=
  {| nodes := nodes g; entry_point := entry_point g; edges := edges g;
     branches := branches g ++ [(src, (path, path_map))] |}.

Definition _setup_workflow (workflow : StateGraph) : StateGraph :=
  let workflow := add_node (lit "model_response") model_response workflow in
  let workflow := add_node (lit "tool_use") tool_use workflow in
  let workflow := set_entry_point (lit "model_response") workflow in
  let workflow := add_edge (lit "tool_use") (lit "model_response") workflow in
  add_conditional_edges (lit "model_response") check_tool_use
    [(lit "tool_use", lit "tool_use"); (END, END)] workflow.

(** [self.workflow] after [__init__]. *)
Definition workflow : StateGraph := _setup_workflow new_StateGraph.

(** *** Running the compiled graph

    [self.agent] is the graph compiled by the graph library, which is
    not part of the repository. What follows is the library's run of a
    graph in which every node has one successor, as [workflow] is: the
    input is merged into the saved state of the thread, the entry node
    runs, its update is merged by the reducer of the state and saved,
    the edges of the node give the next node, and so on until [END];
    an exception of a node or of a path function ends the run as it
    is; and the number of steps is bounded by the [recursion_limit] of
    the config, or by the library's default when the config has
    none. *)

Definition assoc {A} (k : pystr) (l : list (pystr * A)) : option A :=
  snd <$> List.find (λ kv, bool_decide (kv.1 = k)) l.

(** The node that runs after [current]: the target its conditional
    edge gives for the state if it has one, the target of its plain
    edge otherwise, [END] for a node without edges. *)
Definition next_node (g : StateGraph) (current : pystr)
    (state : list Message) : outcome pystr :=
  match assoc current (branches g) with
  | Some (path, path_map) =>
      match path state with
      | Ok r =>
          match assoc r path_map with
          | Some target => Ok target
          | None => Raise (KeyError r)
          end
      | Raise e => Raise e
      end
  | None =>
      match assoc current (edges g) with
      | Some target => Ok target
      | None => Ok END
      end
  end.

(** The reducer of [AgentState.messages]: the update is appended. *)
Definition add_messages (left right : list Message) : list Message :=
  left ++ right.

Definition put_checkpoint (thread : pystr) (state : list Message) : M unit :=
  modify (λ s, set_checkpointer (<[thread := state]> (checkpointer s)) s).

(** The error of the library when the bound is reached, its message
    abridged. *)
Definition GraphRecursionError : exn :=
  Exception (lit "GraphRecursionError")
            (lit "Recursion limit reached without hitting a stop condition.").

Definition unknown_node (name : pystr) : exn :=
  Exception (lit "ValueError") name.

(** The run from node [current]: at most [limit] nodes run, and the
    state is saved after each. *)
Fixpoint run_graph (g : StateGraph) (thread : pystr) (limit : nat)
    (current : pystr) (state : list Message) : M (list Message) :=
  if bool_decide (current = END) then mret state
  else
    match limit with
    | 0 => raise GraphRecursionError
    | S limit' =>
        match assoc current (nodes g) with
        | None => raise (unknown_node current)
        | Some fn =>
            update ← fn state;
            let state' := add_messages state update in
            put_checkpoint thread state' ;;
            next ← of_outcome (next_node g current state');
            run_graph g thread limit' next state'
        end
    end.

(** The [config] argument of [ainvoke]. *)
Record RunnableConfig := {
  configurable_thread_id : pystr;
  recursion_limit : option nat
}.

(** [self.agent.ainvoke({"messages": input}, config=config)]: the
    saved conversation of the thread, the input merged into it, and
    the graph run from its entry point. *)
Definition agent_ainvoke (g : StateGraph) (input : list Message)
    (config : RunnableConfig) : M (list Message) :=
  self ← get;
  let thread := configurable_thread_id config in
  let state := add_messages (default [] (checkpointer self !! thread)) input in
  put_checkpoint thread state ;;
  match entry_point g with
  | None => raise (unknown_node (lit "__start__"))
  | Some entry =>
      run_graph g thread
        (default DEFAULT_RECURSION_LIMIT (recursion_limit config))
        entry state
  end.

(** *** Start-up: [_display_quick_start], [initialize] *)

Definition quick_start_options : gmap pystr pystr :=
  <[lit "1" := lit "List all files in current directory"]>
  (<[lit "2" := lit "Show available tools"]>
  (<[lit "3" := lit "Run the tests"]>
  (<[lit "4" := lit "Read the README.md file"]>
  (<[lit "5" := lit "Search for code in the project"]> ∅)))).

Definition quick_start : pystr :=
  join [NL]
    [ [];
      lit "[bold cyan]What would you like to do?[/bold cyan]";
      [];
      lit "**1.** List all files in current directory";
      lit "**2.** Show available tools";
      lit "**3.** Run the tests";
      lit "**4.** Read the README.md file";
      lit "**5.** Search for code in the project";
      [];
      lit "[dim]Commands: [green]help[/green] | [green]tools[/green] | [green]exit[/green][/dim]";
      lit "[dim]Type a number (1-5) or describe your request[/dim]";
      [] ].

Definition _display_quick_start : M unit :=
  modify (set_last_options quick_start_options) ;;
  print (Panel quick_start []).

(** [initialize]; [get_mcp_tools] is the loader of tool/mcp_tools.py
    and [saved] the content of checkpoints.db. *)
Definition initialize (get_mcp_tools : W → outcome (list Tool) * W)
    (saved : gmap pystr (list Message)) : M unit :=
  self ← get;
  print (Print (lit "[cyan]Initializing checkpoint database: "
                  ++ path_join (getcwd (world self)) (lit "checkpoints.db")
                  ++ lit "[/cyan]")) ;;
  modify (set_checkpointer saved) ;;
  try_except
    (found ← call get_mcp_tools;
     modify (set_mcp_tools found) ;;
     match found with
     | [] => mret ()
     | _ =>
         modify (λ s, set_tools (tools s ++ found) s) ;;
         print (Print (lit "[green]Loaded " ++ str_of_nat (length found)
                         ++ lit " GitHub MCP tools[/green]"))
     end)
    (λ e, print (Print (lit "[yellow]Warning: Could not load MCP tools: "
                          ++ e ++ lit "[/yellow]"))) ;;
  modify (λ s, set_bound_tools (tools s) s) ;;
  print (Print (lit "[green]Agent initialized successfully![/green]" ++ [NL])) ;;
  _display_quick_start.

(** [__init__], before the banner and the tool messages are printed. *)
Definition new_agent
    (the_llm : list Tool → list Message → W
               → outcome (Content * list ToolCall) * W)
    (w : W) : Agent :=
  {| last_options := ∅;
     tools := get_local_tools ++ get_github_tools;
     mcp_tools := [];
     llm := the_llm;
     bound_tools := [];
     thread_id := lit "default_session";
     checkpointer := ∅;
     console := [];
     world := w |}.

(** *** [_display_help], [_display_tools] *)

Definition _display_help : M unit := print HelpPanel.

Definition tool_entry (colour : string) (t : Tool) : pystr :=
  lit "[" ++ lit colour ++ lit "]" ++ [8226%N] ++ lit " " ++ tool_name t
    ++ lit "[/" ++ lit colour ++ lit "]: " ++ tool_description t.

Definition is_github_name (t : Tool) : bool :=
  contains (lit "github") (lower (tool_name t))
  || contains (lit "repo") (lower (tool_name t)).

Definition _display_tools : M unit :=
  self ← get;
  let mcp := filter (λ t, tool_in t (mcp_tools self) = true) (tools self) in
  let rest := filter (λ t, tool_in t (mcp_tools self) = false) (tools self) in
  let github := filter (λ t, is_github_name t = true) rest in
  let loc := filter (λ t, is_github_name t = false) rest in
  print (ToolsTree (tool_entry "yellow" <$> loc)
                   (tool_entry "green" <$> github)
                   (tool_entry "magenta" <$> mcp)).

(** *** The interactive loop: [run] *)

(** What [Prompt.ask] gives: a line, or [EOFError] or
    [KeyboardInterrupt] raised at the prompt. *)
Inductive prompt :=
| Line (user_input : pystr)
| PromptEOF
| PromptInterrupt.

Inductive loop_ctl := Continue | Break.

Definition goodbye : output :=
  Print ([NL] ++ lit "[bold cyan]Goodbye![/bold cyan]" ++ [NL]).

(** [config = {"configurable": {"thread_id": self.thread_id}}] *)
Definition run_config (self : Agent) : RunnableConfig :=
  {| configurable_thread_id := thread_id self; recursion_limit := None |}.

(** The option chosen by a number, or the input as typed. *)
Definition select_option (user_input : pystr) : M pystr :=
  self ← get;
  if isdigit (strip user_input)
     && bool_decide (strip user_input ∈ dom (last_options self))
  then
    match last_options self !! strip user_input with
    | Some selected_option =>
        print (Print (lit "[green]Selected:[/green] " ++ selected_option
                        ++ [NL])) ;;
        mret selected_option
    | None => raise (KeyError (strip user_input))
    end
  else mret user_input.

Definition is_push_folder (user_input : pystr) : bool :=
  contains (lit "push") (lower user_input)
  && contains (lit "folder") (lower user_input).

Definition push_folder_args (folder_path : pystr) : Args :=
  [ (lit "owner", lit "Abhitheshek");
    (lit "repo", lit "terminalcodeAssistant");
    (lit "folder_path", folder_path);
    (lit "branch", lit "main");
    (lit "message", lit "Upload codeAssistent folder") ].

(** The direct command handler for a GitHub push. *)
Definition direct_push (user_input : pystr) : M unit :=
  self ← get;
  let folder_path :=
    if contains (lit "codeassistent") (lower user_input)
    then path_join (getcwd (world self)) (lit "codeAssistent")
    else getcwd (world self) in
  print (Print ([NL] ++ lit "[bold yellow]Executing:[/bold yellow] push_folder")) ;;
  print (Print (lit "[dim]Folder: " ++ folder_path ++ lit "[/dim]" ++ [NL])) ;;
  result ← call (invoke push_folder (push_folder_args folder_path));
  print (Panel result (lit "[bold green]Result[/bold green]")).

(** What the loop does with the input once a number has been
    replaced by its option: the direct push, or a run of the graph on
    a new [HumanMessage]. *)
Definition dispatch (user_input : pystr) : M loop_ctl :=
  if is_push_folder user_input
  then direct_push user_input ;; mret Continue
  else
    self ← get;
    agent_ainvoke workflow [HumanMessage user_input] (run_config self) ;;
    mret Continue.

(** The body of the [try] of one turn of the [while] loop. *)
Definition run_body (p : prompt) : M loop_ctl :=
  print (Print []) ;;
  match p with
  | PromptEOF | PromptInterrupt => print goodbye ;; mret Break
  | Line user_input =>
      if bool_decide (user_input = []) || bool_decide (strip user_input = [])
      then mret Continue
      else if in_list (lower user_input) [lit "exit"; lit "quit"; lit "q"]
      then print goodbye ;; mret Break
      else if eqb (lower user_input) (lit "help")
      then _display_help ;; mret Continue
      else if eqb (lower user_input) (lit "tools")
      then _display_tools ;; mret Continue
      else
        user_input ← select_option user_input;
        dispatch user_input
  end.

(** The three prints of the handler of [Exception]. *)
Definition error_report (cls msg : pystr) : list output :=
  [ Print (lit "[bold red]Error: " ++ msg ++ lit "[/bold red]");
    Traceback (Exception cls msg);
    Print (lit "[yellow]Continuing... Type 'exit' to quit[/yellow]") ].

(** One turn of the [while] loop, with the two handlers of the outer
    [try]. *)
Definition run_iteration (p : prompt) (self : Agent) : loop_ctl * Agent :=
  match run_body p self with
  | (Ok ctl, s) => (ctl, s)
  | (Raise KeyboardInterrupt, s) =>
      (Break, set_console (console s ++ [goodbye]) s)
  | (Raise (Exception cls msg), s) =>
      (Continue, set_console (console s ++ error_report cls msg) s)
  end.

(** [run] on the answers the prompt gives, in order: [Break] when the
    loop has ended, [Continue] when it waits for the next answer. *)
Fixpoint run (prompts : list prompt) (self : Agent) : loop_ctl * Agent :=
  match prompts with
  | [] => (Continue, self)
  | p :: rest =>
      match run_iteration p self with
      | (Break, s) => (Break, s)
      | (Continue, s) => run rest s
      end
  end.

End Agent.

(** ** A small instance: an ASCII runtime, a world that is a counter of
    calls, and an agent with one tool that answers, one that raises and
    one reached through MCP. *)

Module Sample.

Definition ascii_lower_char (c : N) : N :=
  if ((65 <=? c) && (c <=? 90))%N then (c + 32)%N else c.

Definition ascii_lower (s : pystr) : pystr := ascii_lower_char <$> s.

Definition ascii_isdigit (c : N) : bool := ((48 <=? c) && (c <=? 57))%N.

Definition cwd (_ : nat) : pystr := lit "/home/user/project".

Definition posix_join (a b : pystr) : pystr := a ++ lit "/" ++ b.

Definition echo : @Tool nat :=
  {| tool_ident := 1; tool_name := lit "echo";
     tool_description := lit "answers ok";
     invoke := λ _ w, (Ok (lit "ok"), S w);
     ainvoke := λ _ w, (Ok (lit "ok"), S w) |}.

Definition broken : @Tool nat :=
  {| tool_ident := 2; tool_name := lit "broken";
     tool_description := lit "always raises";
     invoke := λ _ w, (Raise (Exception (lit "ValueError") (lit "boom")), S w);
     ainvoke := λ _ w, (Raise (Exception (lit "ValueError") (lit "boom")), S w) |}.

Definition remote : @Tool nat :=
  {| tool_ident := 3; tool_name := lit "remote";
     tool_description := lit "an MCP tool";
     invoke := λ _ w, (Raise (Exception (lit "NotImplementedError") (lit "sync")), S w);
     ainvoke := λ _ w, (Ok (lit "remote ok"), S w) |}.

Definition push : @Tool nat :=
  {| tool_ident := 4; tool_name := lit "push_folder";
     tool_description := lit "push a folder";
     invoke := λ _ w, (Ok (lit "Uploaded 0 files"), S w);
     ainvoke := λ _ w, (Ok (lit "Uploaded 0 files"), S w) |}.

Definition call_of (name id : string) : ToolCall :=
  {| tc_name := lit name; tc_args := []; tc_id := lit id |}.

(** A backend that asks for [echo] once and then answers in text. *)
Definition polite_llm (_ : list (@Tool nat)) (messages : list Message)
    (w : nat) : outcome (Content * list ToolCall) * nat :=
  match last messages with
  | Some (ToolMessage _ _) => (Ok (Text (lit "- done"), []), S w)
  | _ => (Ok (Text [], [call_of "echo" "call_1"]), S w)
  end.

(** A backend every response of which asks for a tool. *)
Definition looping_llm (_ : list (@Tool nat)) (_ : list Message)
    (w : nat) : outcome (Content * list ToolCall) * nat :=
  (Ok (Text [], [call_of "echo" "call_1"]), S w).

(** A backend that fails. *)
Definition failing_llm (_ : list (@Tool nat)) (_ : list Message)
    (w : nat) : outcome (Content * list ToolCall) * nat :=
  (Raise (Exception (lit "TimeoutError") (lit "timed out")), w).

Definition agent_with
    (the_llm : list (@Tool nat) → list Message → nat
               → outcome (Content * list ToolCall) * nat) : @Agent nat :=
  {| last_options := ∅;
     tools := [echo; broken; remote];
     mcp_tools := [remote];
     llm := the_llm;
     bound_tools := [echo; broken; remote];
     thread_id := lit "default_session";
     checkpointer := ∅;
     console := [];
     world := 0 |}.

End Sample.

(** ** Vocabulary of the statements *)

(** A piece of text an item of a pattern may consume. *)
Definition piece_ok (it : item) (w : pystr) : Prop :=
  Forall (λ c, cls it c = true) w ∧
  match rep it with
  | One => length w = 1
  | Star => True
  | Plus => w ≠ []
  end.

(** What the pattern asks of a line: blanks, a bullet glyph, at least
    one blank, and content. *)
Definition bullet_shape (line indent content : pystr) : Prop :=
  ∃ b ws,
    line = indent ++ b :: ws ++ content ∧
    Forall (λ c, isspace c = true) indent ∧
    bullet b = true ∧
    ws ≠ [] ∧ Forall (λ c, isspace c = true) ws ∧
    content ≠ [].

(** The matches of a list of lines, in document order. *)
Definition found (lines : list pystr) : list (pystr * pystr) :=
  omap bullet_match lines.

(** What a line becomes, given the lines before it. *)
Definition render (before : list pystr) (line : pystr) : pystr :=
  match bullet_match line with
  | Some (indent, content) =>
      numbered indent (S (length (found before))) content
  | None => line
  end.

(** The map holds the pair [str(n): content] of the n-th match, for
    every match, and nothing else. *)
Definition options_of (ms : list (pystr * pystr)) (opts : gmap pystr pystr)
  : Prop :=
  ∀ k v, opts !! k = Some v ↔
         ∃ n ic, ms !! n = Some ic ∧ k = str_of_nat (S n) ∧ v = ic.2.

(** The parts of [self] no node assigns. *)
Definition same_setup {W : Type} (s s' : @Agent W) : Prop :=
  tools s' = tools s ∧ mcp_tools s' = mcp_tools s ∧ llm s' = llm s ∧
  bound_tools s' = bound_tools s ∧ thread_id s' = thread_id s.

Definition not_found_message (tc : ToolCall) : Message :=
  ToolMessage (lit "Tool " ++ tc_name tc ++ lit " not found") (tc_id tc).

Definition tool_error_message (tc : ToolCall) (msg : pystr) : Message :=
  ToolMessage (lit "Tool error: " ++ msg) (tc_id tc).

(** A tool message that answers a request: it carries its id. *)
Definition answers (tc : ToolCall) (m : Message) : Prop :=
  ∃ text, m = ToolMessage text (tc_id tc).

(** Some tool of the registry, called for one of the requests, raises
    [KeyboardInterrupt]. *)
Definition interrupted_by {W : Type} (s : @Agent W) (tcs : list ToolCall)
  : Prop :=
  ∃ tc tool w, tc ∈ tcs ∧ find_tool (tools s) (tc_name tc) = Some tool ∧
    (invoke_tool s tool (tc_args tc) w).1 = Raise KeyboardInterrupt.

(** A run after its input: model turns, each with the results of its
    requests right after it and in their order, up to a model turn
    without requests. *)
Inductive turns : list Message → Prop :=
| turns_done c : turns [AIMessage c []]
| turns_tools c tcs results rest :
    tcs ≠ [] → Forall2 answers tcs results → turns rest →
    turns (AIMessage c tcs :: results ++ rest).

(** What a typed token stands for under an option map: the option it
    names, when it is all digits and a key of the map; itself
    otherwise. The token is the input without the blanks around it. *)
Definition resolved (unicode_isdigit : N → bool) (options : gmap pystr pystr)
    (user_input : pystr) : pystr :=
  match options !! strip user_input with
  | Some selected_option =>
      if isdigit unicode_isdigit (strip user_input) then selected_option
      else user_input
  | None => user_input
  end.

(** An input the loop neither skips nor takes as a command. *)
Definition is_request (lower : pystr → pystr) (user_input : pystr) : Prop :=
  user_input ≠ [] ∧ strip user_input ≠ [] ∧
  in_list (lower user_input) [lit "exit"; lit "quit"; lit "q"] = false ∧
  eqb (lower user_input) (lit "help") = false ∧
  eqb (lower user_input) (lit "tools") = false.

(** The number of System messages of a conversation. *)
Definition count_system (messages : list Message) : nat :=
  length (filter (λ m, is_system m = true) messages).

(** The request of [Sample.looping_llm]. *)
Definition looping_call : ToolCall := Sample.call_of "echo" "call_1".

(** * More of the code

    The schema cleaner and the loader of tool/mcp_tools.py, the direct
    tools of tool/github_direct.py, and the vocabulary of the
    properties stated of them and of the agent. *)

(** ** JSON schemas and [_clean_schema] (tool/mcp_tools.py)

    A schema is a JSON value as it is decoded: a tree. A [dict] is the
    list of its items in insertion order, with keys that differ. *)

#[local] Unset Elimination Schemes.
Inductive json :=
| JNull
| JBool (b : bool)
| JNum (n : Z)
| JStr (s : pystr)
| JList (items : list json)
| JDict (entries : list (pystr * json)).

#[local] Set Elimination Schemes.

(** The two keys [_clean_schema] pops, as code points. *)
Definition schema_key : pystr := 36%N :: lit "schema".
Definition additional_key : pystr := lit "additionalProperties".

(** [d.pop(key, None)] *)
Definition pop (key : pystr) (d : list (pystr * json)) : list (pystr * json) :=
  filter (λ kv, kv.1 ≠ key) d.

(** [_clean_schema(schema)], as the value [schema] holds afterwards. The
    two pops and the loop over the items are one pass over the items
    here: an item under a popped key is dropped, the value of any other
    item is cleaned when it is a dict, and has the dicts among its
    items cleaned when it is a list. *)
Fixpoint _clean_schema (schema : json) : json :=
  match schema with
  | JDict d =>
      JDict
        ((fix items_of (d : list (pystr * json)) : list (pystr * json) :=
            match d with
            | [] => []
            | (key, value) :: rest =>
                if bool_decide (key = schema_key)
                   || bool_decide (key = additional_key)
                then items_of rest
                else
                  (key,
                   match value with
                   | JDict _ => _clean_schema value
                   | JList items =>
                       JList (map (λ item,
                                     match item with
                                     | JDict _ => _clean_schema item
                                     | _ => item
                                     end) items)
                   | _ => value
                   end) :: items_of rest
            end) d)
  | _ => schema
  end.

(** What the loop does to an item of a list. *)
Definition clean_item (item : json) : json :=
  match item with
  | JDict _ => _clean_schema item
  | _ => item
  end.

(** The dicts [_clean_schema] visits in a value: the value itself when
    it is a dict, and from a dict it visits the dicts among its values
    and the dicts among the items of its values that are lists. *)
Inductive visits : json → list (pystr * json) → Prop :=
| visits_self d : visits (JDict d) d
| visits_value d key d' x :
    (key, JDict d') ∈ d → visits (JDict d') x → visits (JDict d) x
| visits_item d key items d' x :
    (key, JList items) ∈ d → JDict d' ∈ items → visits (JDict d') x →
    visits (JDict d) x.

(** A dict without the two keys. *)
Definition no_popped_key (d : list (pystr * json)) : Prop :=
  (schema_key ∉ (fst <$> d)) ∧ (additional_key ∉ (fst <$> d)).

(** What the loop does to the value of an item of the dict. *)
Definition clean_value (value : json) : json :=
  match value with
  | JDict _ => _clean_schema value
  | JList items => JList (map clean_item items)
  | _ => value
  end.

(** [P] holds of a value and, when the value is a list, of its items. *)
Definition for_value_and_items (P : json → Prop) (v : json) : Prop :=
  P v ∧ ∀ items, v = JList items → Forall P items.

(** ** The MCP loader: [get_mcp_tools] (tool/mcp_tools.py) *)

(** Truth value of a decoded JSON value. *)
Definition json_truthy (v : json) : bool :=
  match v with
  | JNull => false
  | JBool b => b
  | JNum n => negb (bool_decide (n = 0%Z))
  | JStr s => negb (bool_decide (s = []))
  | JList items => negb (bool_decide (items = []))
  | JDict entries => negb (bool_decide (entries = []))
  end.

Section McpLoader.

Context {W : Type}.

(** A tool as the MCP client returns it: the handle the agent calls,
    and its [args_schema] attribute, if it has one. *)
Record McpTool := {
  mcp_handle : @Tool W;
  args_schema : option json
}.

Variable getenv : pystr → W → option pystr.             (* [os.getenv] *)
Variable stdout_print : pystr → W → W.                  (* [print] *)
(** [MultiServerMCPClient({...}).get_tools()] for a token: starts the
    server process and asks it for its tools. *)
Variable client_get_tools : pystr → W → outcome (list McpTool) * W.

(** The body of the loop over the tools. *)
Definition clean_tool (tool : McpTool) : McpTool :=
  match args_schema tool with
  | Some schema =>
      if json_truthy schema
      then {| mcp_handle := mcp_handle tool;
              args_schema := Some (_clean_schema schema) |}
      else tool
  | None => tool
  end.

Definition get_mcp_tools (w : W) : outcome (list McpTool) * W :=
  match getenv (lit "GITHUB_TOKEN") w with
  | None | Some [] =>
      (Ok [], stdout_print (lit "Warning: GITHUB_TOKEN not found") w)
  | Some github_token =>
      match client_get_tools github_token w with
      | (Ok mcp_tools, w') =>
          (Ok (clean_tool <$> mcp_tools),
           stdout_print (lit "Loaded " ++ str_of_nat (length mcp_tools)
                           ++ lit " GitHub MCP tools") w')
      | (Raise (Exception _ e), w') =>
          (Ok [], stdout_print (lit "Warning: Could not load MCP tools: "
                                  ++ e) w')
      | (Raise KeyboardInterrupt, w') => (Raise KeyboardInterrupt, w')
      end
  end.

(** The loader as [initialize] sees it: the handles of the tools. *)
Definition load_mcp_handles (w : W) : outcome (list (@Tool W)) * W :=
  match get_mcp_tools w with
  | (Ok mcp_tools, w') => (Ok (mcp_handle <$> mcp_tools), w')
  | (Raise e, w') => (Raise e, w')
  end.

End McpLoader.

Arguments McpTool : clear implicits.

(** The schema of a tool is clean: no dict the cleaning visits has one
    of the two keys. *)
Definition clean_schema_of {W} (tool : McpTool W) : Prop :=
  ∀ schema x, args_schema tool = Some schema → visits schema x →
              no_popped_key x.

(** The warning of [initialize] for a loader that raised. *)
Definition mcp_warning (e : pystr) : output :=
  Print (lit "[yellow]Warning: Could not load MCP tools: " ++ e
           ++ lit "[/yellow]").

(** The conversation without the System message it starts with, if it
    starts with one. *)
Definition without_leading_system (messages : list Message) : list Message :=
  match messages with
  | SystemMessage _ :: rest => rest
  | _ => messages
  end.

(** The last message as the model receives it: a Human message with
    the order to call a tool appended to its text when the text names
    a GitHub action, the message itself otherwise. *)
Definition steered (lower : pystr → pystr) (m : Message) (text : pystr)
  : Message :=
  if existsb (λ word, contains word (lower text)) action_words
  then HumanMessage (text ++ force_tool_suffix)
  else m.

(** An ASCII digit. *)
Definition ascii_digit (c : N) : Prop := (48 ≤ c ≤ 57)%N.

(** A message a node of the graph appends: the response of the model
    or the result of a tool. *)
Definition from_node (m : Message) : Prop :=
  match m with
  | AIMessage _ _ | ToolMessage _ _ => True
  | SystemMessage _ | HumanMessage _ => False
  end.

(** An answer of the prompt that the loop handles by itself: the end
    of input, an interrupt, a blank line, or one of the commands. *)
Definition is_command (lower : pystr → pystr) (p : prompt) : Prop :=
  match p with
  | Line user_input =>
      user_input = [] ∨ strip user_input = [] ∨
      in_list (lower user_input) [lit "exit"; lit "quit"; lit "q"] = true ∨
      eqb (lower user_input) (lit "help") = true ∨
      eqb (lower user_input) (lit "tools") = true
  | PromptEOF | PromptInterrupt => True
  end.

(** Whether such an answer ends the loop: the test for a blank line
    comes before the test for [exit]. *)
Definition ends_loop (lower : pystr → pystr) (p : prompt) : bool :=
  match p with
  | Line user_input =>
      negb (bool_decide (user_input = []) || bool_decide (strip user_input = []))
      && in_list (lower user_input) [lit "exit"; lit "quit"; lit "q"]
  | PromptEOF | PromptInterrupt => true
  end.

(** ** The direct GitHub tools (tool/github_direct.py)

    The functions under [@tool], as they run once the arguments have
    been bound. *)

(** A directory as [os.walk] reads it: its subdirectories and the
    names of its files, in the order of the listing. *)
#[local] Unset Elimination Schemes.
Inductive fstree :=
| Folder (dirs : list (pystr * fstree)) (files : list pystr).
#[local] Set Elimination Schemes.

(** What [repository.get_contents] returns: a file with its [sha], or
    the list of the entries of a directory. *)
Inductive Contents :=
| ContentFile (sha : pystr)
| ContentList.

(** [name.startswith('.')] *)
Definition hidden (name : pystr) : bool := startswith name (lit ".").

(** [s.replace('\\', '/')] *)
Definition to_posix (s : pystr) : pystr :=
  (λ c, if (c =? 92)%N then 47%N else c) <$> s.

(** [U+2713] and [U+26A0] *)
Definition check_mark : pystr := [10003%N].
Definition warning_sign : pystr := [9888%N].

(** A [for] loop whose body may raise: the state after the last item,
    or the first exception. *)
Fixpoint for_each {W A S : Type} (body : A → S → W → outcome S * W)
    (items : list A) (st : S) (w : W) : outcome S * W :=
  match items with
  | [] => (Ok st, w)
  | item :: rest =>
      match body item st w with
      | (Ok st', w') => for_each body rest st' w'
      | (Raise e, w') => (Raise e, w')
      end
  end.

Section GithubDirect.

Context {W R : Type}.

Variable getenv : pystr → W → option pystr.          (* [os.getenv] *)
Variable path_exists : pystr → W → bool.             (* [os.path.exists] *)
Variable path_isdir : pystr → W → bool.              (* [os.path.isdir] *)
Variable path_join : pystr → pystr → pystr.          (* [os.path.join] *)
(** [os.path.relpath], for the working directory of the process. *)
Variable relpath : pystr → pystr → pystr.
Variable basename : pystr → pystr.                   (* [os.path.basename] *)
(** [open(path, 'r', encoding='utf-8')] and [f.read()] *)
Variable read_text : pystr → W → outcome pystr.
(** The directory tree under a path, as [os.walk] finds it. *)
Variable scan : pystr → W → fstree.
Variable repr_list : list pystr → pystr.             (* [repr] of a list *)

(** PyGithub: [Github(token).get_repo(full_name)], the calls on a
    repository, [Github(token).get_user().create_repo(...)] with the
    [html_url] of the result, and the classes under [GithubException]. *)
Variable get_repo : pystr → pystr → W → outcome R * W.
Variable get_contents : R → pystr → pystr → W → outcome Contents * W.
Variable update_file :
  R → pystr → pystr → pystr → pystr → pystr → W → outcome unit * W.
Variable create_file :
  R → pystr → pystr → pystr → pystr → W → outcome unit * W.
Variable create_repo : pystr → pystr → bool → pystr → W → outcome pystr * W.
Variable is_GithubException : pystr → bool.

(** [not token] *)
Definition no_token (token : option pystr) : bool :=
  match token with
  | None | Some [] => true
  | Some _ => false
  end.

(** [except Exception as e: return f"Error: {str(e)}"] *)
Definition error_text (e : exn) (w : W) : outcome pystr * W :=
  match e with
  | Exception _ msg => (Ok (lit "Error: " ++ msg), w)
  | KeyboardInterrupt => (Raise KeyboardInterrupt, w)
  end.

(** [existing.sha] *)
Definition sha_of (existing : Contents) : outcome pystr :=
  match existing with
  | ContentFile sha => Ok sha
  | ContentList => Raise (AttributeError "'list' object has no attribute 'sha'")
  end.

(** *** [quick_push_file] *)

Definition quick_push_file (owner repo file_path branch message : pystr)
    (w : W) : outcome pystr * W :=
  if no_token (getenv (lit "GITHUB_TOKEN") w)
  then (Ok (lit "Error: GITHUB_TOKEN not found in environment"), w)
  else if negb (path_exists file_path w)
  then (Ok (lit "Error: File '" ++ file_path ++ lit "' not found"), w)
  else
    match read_text file_path w with
    | Raise e => error_text e w
    | Ok content =>
        match get_repo (default [] (getenv (lit "GITHUB_TOKEN") w))
                (owner ++ lit "/" ++ repo) w with
        | (Raise e, w1) => error_text e w1
        | (Ok repository, w1) =>
            let file_name := basename file_path in
            let create w2 :=
              match create_file repository file_name message content branch
                      w2 with
              | (Ok _, w3) =>
                  (Ok (check_mark ++ lit " Successfully created " ++ file_name
                         ++ lit " in " ++ owner ++ lit "/" ++ repo), w3)
              | (Raise e, w3) => error_text e w3
              end in
            let handler e w2 :=
              match e with
              | Exception cls _ =>
                  if is_GithubException cls then create w2
                  else error_text e w2
              | KeyboardInterrupt => error_text e w2
              end in
            match get_contents repository file_name branch w1 with
            | (Raise e, w2) => handler e w2
            | (Ok existing_file, w2) =>
                match sha_of existing_file with
                | Raise e => error_text e w2
                | Ok sha =>
                    match update_file repository file_name message content
                            sha branch w2 with
                    | (Ok _, w3) =>
                        (Ok (check_mark ++ lit " Successfully updated "
                               ++ file_name ++ lit " in " ++ owner
                               ++ lit "/" ++ repo), w3)
                    | (Raise e, w3) => handler e w3
                    end
                end
            end
        end
    end.

(** *** [create_github_repo] *)

Definition create_github_repo (name : pystr) (private : bool)
    (description : pystr) (w : W) : outcome pystr * W :=
  if no_token (getenv (lit "GITHUB_TOKEN") w)
  then (Ok (lit "Error: GITHUB_TOKEN not found"), w)
  else
    match create_repo (default [] (getenv (lit "GITHUB_TOKEN") w))
            name private description w with
    | (Ok html_url, w1) =>
        (Ok (check_mark ++ lit " Created repository: " ++ html_url), w1)
    | (Raise e, w1) => error_text e w1
    end.

(** *** [push_folder] *)

(** [os.walk(folder_path)] with the hidden directories taken out of
    [dirs] at every step: the [root] and the [files] of every step. *)
Fixpoint walk (root : pystr) (tree : fstree) : list (pystr * list pystr) :=
  match tree with
  | Folder dirs files =>
      (root, files) ::
      (fix below (dirs : list (pystr * fstree)) : list (pystr * list pystr) :=
         match dirs with
         | [] => []
         | (d, sub) :: dirs' =>
             if hidden d then below dirs'
             else walk (path_join root d) sub ++ below dirs'
         end) dirs
  end.

(** The inner [try]: update the file or, whatever went wrong, create
    it. *)
Definition update_or_create (repository : R)
    (repo_path message content branch : pystr) (w : W) : outcome unit * W :=
  match get_contents repository repo_path branch w with
  | (Ok existing, w1) =>
      match sha_of existing with
      | Ok sha =>
          match update_file repository repo_path message content sha branch
                  w1 with
          | (Ok _, w2) => (Ok (), w2)
          | (Raise _, w2) =>
              create_file repository repo_path message content branch w2
          end
      | Raise _ => create_file repository repo_path message content branch w1
      end
  | (Raise _, w1) => create_file repository repo_path message content branch w1
  end.

(** The body of the loop over [files], on [(uploaded, errors)]. *)
Definition push_file (repository : R) (folder_path branch message : pystr)
    (root file : pystr) (st : list pystr * list pystr) (w : W)
  : outcome (list pystr * list pystr) * W :=
  if hidden file then (Ok st, w)
  else
    let local_path := path_join root file in
    let repo_path := to_posix (relpath local_path folder_path) in
    let failed e w' :=
      match e with
      | Exception _ msg =>
          (Ok (st.1, st.2 ++ [repo_path ++ lit ": " ++ msg]), w')
      | KeyboardInterrupt => (Raise KeyboardInterrupt, w')
      end in
    match read_text local_path w with
    | Raise e => failed e w
    | Ok content =>
        match update_or_create repository repo_path message content branch
                w with
        | (Ok _, w') => (Ok (st.1 ++ [repo_path], st.2), w')
        | (Raise e, w') => failed e w'
        end
    end.

Definition push_files (repository : R) (folder_path branch message : pystr)
    (steps : list (pystr * list pystr))
  : list pystr * list pystr → W → outcome (list pystr * list pystr) * W :=
  for_each
    (λ step, for_each (push_file repository folder_path branch message step.1)
                      step.2)
    steps.

Definition push_result (owner repo : pystr) (uploaded errors : list pystr)
  : pystr :=
  let result :=
    check_mark ++ lit " Uploaded " ++ str_of_nat (length uploaded)
      ++ lit " files to " ++ owner ++ lit "/" ++ repo in
  match errors with
  | [] => result
  | _ => result ++ [NL] ++ warning_sign ++ lit " "
           ++ str_of_nat (length errors) ++ lit " errors: "
           ++ repr_list (take 3 errors)
  end.

Definition push_folder (owner repo folder_path branch message : pystr)
    (w : W) : outcome pystr * W :=
  if no_token (getenv (lit "GITHUB_TOKEN") w)
  then (Ok (lit "Error: GITHUB_TOKEN not found"), w)
  else if negb (path_exists folder_path w)
  then (Ok (lit "Error: Folder '" ++ folder_path ++ lit "' not found"), w)
  else if negb (path_isdir folder_path w)
  then (Ok (lit "Error: '" ++ folder_path ++ lit "' is not a folder"), w)
  else
    match get_repo (default [] (getenv (lit "GITHUB_TOKEN") w))
            (owner ++ lit "/" ++ repo) w with
    | (Raise e, w1) => error_text e w1
    | (Ok repository, w1) =>
        match push_files repository folder_path branch message
                (walk folder_path (scan folder_path w1)) ([], []) w1 with
        | (Ok (uploaded, errors), w2) =>
            (Ok (push_result owner repo uploaded errors), w2)
        | (Raise e, w2) => error_text e w2
        end
    end.

End GithubDirect.

(** The files [push_folder] is to push: the files that are not hidden,
    of the folder and of the directories below it that no hidden
    directory leads to, each with the directory it is in. *)
Fixpoint pushed_files (path_join : pystr → pystr → pystr) (root : pystr)
    (tree : fstree) : list (pystr * pystr) :=
  match tree with
  | Folder dirs files =>
      ((λ file, (root, file)) <$> filter (λ file, hidden file = false) files)
      ++ (fix below (dirs : list (pystr * fstree)) : list (pystr * pystr) :=
            match dirs with
            | [] => []
            | (d, sub) :: dirs' =>
                if hidden d then below dirs'
                else pushed_files path_join (path_join root d) sub
                       ++ below dirs'
            end) dirs
  end.

(** The path in the repository of a file [file] of the directory
    [root]. *)
Definition repo_path_of (path_join relpath : pystr → pystr → pystr)
    (folder_path : pystr) (rf : pystr * pystr) : pystr :=
  to_posix (relpath (path_join rf.1 rf.2) folder_path).

(** The lists [uploaded] and [errors] have grown by one entry for
    every file of [todo] together, [uploaded] by paths of [todo] in
    their order. *)
Definition grows (repo_path : pystr * pystr → pystr)
    (todo : list (pystr * pystr)) (st st' : list pystr * list pystr) : Prop :=
  ∃ us es,
    st' = (st.1 ++ us, st.2 ++ es) ∧
    length us + length es = length todo ∧
    us `sublist_of` (repo_path <$> todo).

(** A module of samples: a folder with a hidden directory, a hidden
    file and a file that is no text, and a repository that has none of
    the files yet. The world is the list of the paths created. *)
Module SampleGithub.

Definition getenv (name : pystr) (w : list pystr) : option pystr :=
  Some (lit "secret").
Definition path_join (a b : pystr) : pystr := a ++ lit "/" ++ b.
Definition relpath (path start : pystr) : pystr :=
  drop (S (length start)) path.
Definition read_text (path : pystr) (w : list pystr) : outcome pystr :=
  if bool_decide (path = lit "/work/logo.png")
  then Raise (Exception (lit "UnicodeDecodeError") (lit "invalid start byte"))
  else Ok (lit "text").
Definition scan (path : pystr) (w : list pystr) : fstree :=
  Folder [ (lit ".git", Folder [] [lit "config"]);
           (lit "src", Folder [] [lit "a.py"]) ]
         [ lit "README.md"; lit ".env"; lit "logo.png" ].
Definition get_repo (token full_name : pystr) (w : list pystr)
  : outcome unit * list pystr := (Ok (), w).
Definition get_contents (r : unit) (path ref : pystr) (w : list pystr)
  : outcome Contents * list pystr :=
  (Raise (Exception (lit "UnknownObjectException") (lit "404")), w).
Definition update_file (r : unit) (path message content sha branch : pystr)
    (w : list pystr) : outcome unit * list pystr := (Ok (), w).
Definition create_file (r : unit) (path message content branch : pystr)
    (w : list pystr) : outcome unit * list pystr := (Ok (), w ++ [path]).
Definition push_folder : pystr → list pystr → outcome pystr * list pystr :=
  push_folder getenv (λ _ _, true) (λ _ _, true) path_join relpath read_text
    scan (join (lit ", ")) get_repo get_contents update_file create_file
    (lit "octocat") (lit "demo") (lit "/work") (lit "main").

End SampleGithub.

Ltac unfold_M :=
  unfold mbind, M_bind, mret, M_ret, print, modify, get, raise, of_outcome,
    call, try_except in *.

(** * Properties *)

(** ** Strings *)

Lemma N_of_ascii_inj : Inj (=) (=) N_of_ascii.
Proof.
  intros x y Hxy.
  rewrite <- (ascii_N_embedding x), <- (ascii_N_embedding y). by f_equal.
Qed.

Lemma lit_inj : Inj (=) (=) lit.
Proof.
  intros a b H. unfold lit in H.
  pose proof N_of_ascii_inj.
  apply (inj (fmap N_of_ascii)) in H.
  rewrite <- (String.string_of_list_ascii_of_string a),
          <- (String.string_of_list_ascii_of_string b).
  by f_equal.
Qed.

Lemma str_of_nat_inj : Inj (=) (=) str_of_nat.
Proof. intros a b H. apply lit_inj in H. by apply (inj pretty) in H. Qed.

Lemma split_nonempty sep s : split sep s ≠ [].
Proof. destruct s as [|c s]; simpl; [done|]. case_match; [done|]. by case_match. Qed.

Lemma split_no_sep sep s line : line ∈ split sep s → sep ∉ line.
Proof.
  revert line. induction s as [|c s IH]; simpl; intros line.
  - intros ->%list_elem_of_singleton. apply not_elem_of_nil.
  - destruct (N.eqb_spec c sep) as [->|Hne].
    + intros [->|?]%elem_of_cons; [apply not_elem_of_nil | by apply IH].
    + destruct (split sep s) as [|h t] eqn:E.
      * by destruct (split_nonempty sep s).
      * intros [->|?]%elem_of_cons.
        -- intros [?|?]%elem_of_cons; [done|].
           apply (IH h); [left | done].
        -- apply IH. by right.
Qed.

(** ** The matcher *)

Lemma at_end_no_newline tail : at_end tail = true → NL ∉ tail → tail = [].
Proof.
  destruct tail as [|c [|d tail]]; simpl; [done| |done].
  intros ->%N.eqb_eq Hn. destruct Hn. left.
Qed.

Lemma greedy_sound p k s w r :
  greedy p k s = Some (w, r) →
  ∃ s', s = w ++ s' ∧ Forall (λ c, p c = true) w ∧ k s' = Some r.
Proof.
  revert w r. induction s as [|c s IH]; simpl; intros w r H.
  - destruct (k []) as [r'|] eqn:E; simplify_eq/=. by exists [].
  - destruct (p c) eqn:Hp.
    + destruct (greedy p k s) as [[w' r']|] eqn:E.
      * simplify_eq. destruct (IH _ _ eq_refl) as (s' & -> & Hw & Hk).
        exists s'. split_and!; [done| |done]. by constructor.
      * destruct (k (c :: s)) as [r'|] eqn:E'; simplify_eq/=.
        by exists (c :: s).
    + destruct (k (c :: s)) as [r'|] eqn:E'; simplify_eq/=.
      by exists (c :: s).
Qed.

Lemma greedy_complete p k w s' :
  Forall (λ c, p c = true) w → is_Some (k s') → is_Some (greedy p k (w ++ s')).
Proof.
  intros Hw [r Hk]. induction Hw as [|c w Hc Hw IH]; simpl.
  - destruct s' as [|c s]; simpl; [by rewrite Hk|].
    destruct (p c); [|by rewrite Hk].
    destruct (greedy p k s) as [[]|]; [done|by rewrite Hk].
  - rewrite Hc. by destruct IH as [[] ->].
Qed.

Lemma greedy_longest p k s w r w' s' :
  greedy p k s = Some (w, r) →
  s = w' ++ s' → Forall (λ c, p c = true) w' → is_Some (k s') →
  length w' ≤ length w.
Proof.
  revert w r w'. induction s as [|c s IH]; simpl; intros w r w' H Hs Hw' Hk.
  - destruct w'; [simpl; lia | done].
  - destruct w' as [|c' w']; [simpl; lia|]. simplify_eq/=.
    apply Forall_cons in Hw' as [Hc' Hw']. rewrite Hc' in H.
    destruct (greedy p k (w' ++ s')) as [[w0 r0]|] eqn:E.
    + simplify_eq/=. apply le_n_S. by eapply IH.
    + destruct (greedy_complete p k w' s' Hw' Hk) as [? E']. congruence.
Qed.

Lemma match_seq_sound items s ws :
  match_seq items s = Some ws →
  Forall2 piece_ok items ws ∧ ∃ tail, s = concat ws ++ tail ∧ at_end tail = true.
Proof.
  revert s ws. induction items as [|it items IH]; simpl; intros s ws H.
  - destruct (at_end s) eqn:E; simplify_eq. split; [constructor|]. by exists s.
  - destruct (rep it) eqn:Hrep.
    + destruct s as [|c s]; [done|]. destruct (cls it c) eqn:Hc; [|done].
      destruct (match_seq items s) as [r|] eqn:E; simplify_eq/=.
      destruct (IH _ _ E) as (HF & tail & -> & Htail).
      split; [|by exists tail].
      constructor; [|done]. split; [by repeat constructor | by rewrite Hrep].
    + destruct (greedy (cls it) (match_seq items) s) as [[w r]|] eqn:E;
        simplify_eq/=.
      apply greedy_sound in E as (s' & -> & Hw & Hk).
      destruct (IH _ _ Hk) as (HF & tail & -> & Htail).
      split; [|exists tail; by rewrite (assoc_L (++))].
      constructor; [|done]. split; [done | by rewrite Hrep].
    + destruct s as [|c s]; [done|]. destruct (cls it c) eqn:Hc; [|done].
      destruct (greedy (cls it) (match_seq items) s) as [[w r]|] eqn:E;
        simplify_eq/=.
      apply greedy_sound in E as (s' & -> & Hw & Hk).
      destruct (IH _ _ Hk) as (HF & tail & -> & Htail).
      split; [|exists tail; by rewrite (assoc_L (++))].
      constructor; [|done]. split; [by constructor | by rewrite Hrep].
Qed.

Lemma match_seq_complete items ws tail :
  Forall2 piece_ok items ws → at_end tail = true →
  is_Some (match_seq items (concat ws ++ tail)).
Proof.
  intros HF Htail. induction HF as [|it w items ws [Hw Hrep] HF IH]; simpl.
  - by rewrite Htail.
  - destruct (rep it).
    + destruct w as [|c [|??]]; simplify_eq/=.
      apply Forall_cons in Hw as [-> _]. by destruct IH as [? ->].
    + rewrite <- (assoc_L (++)). apply fmap_is_Some. by apply greedy_complete.
    + destruct w as [|c w]; [done|]. simpl.
      apply Forall_cons in Hw as [-> Hw].
      rewrite <- (assoc_L (++)). apply fmap_is_Some. by apply greedy_complete.
Qed.

Lemma dot_all (s : pystr) : NL ∉ s → Forall (λ c, dot c = true) s.
Proof.
  intros Hn. apply Forall_forall. intros c Hc. unfold dot.
  destruct (N.eqb_spec c NL) as [->|]; done.
Qed.

Lemma bullet_shape_pieces (indent content : pystr) b (ws : pystr) :
  Forall (λ c, isspace c = true) indent → bullet b = true →
  ws ≠ [] → Forall (λ c, isspace c = true) ws → content ≠ [] →
  NL ∉ content →
  Forall2 piece_ok bullet_re [indent; [b]; ws; content].
Proof.
  intros. repeat constructor; simpl; try done. by apply dot_all.
Qed.

Lemma bullet_pieces_inv pieces :
  Forall2 piece_ok bullet_re pieces →
  ∃ indent b ws content,
    pieces = [indent; [b]; ws; content] ∧
    Forall (λ c, isspace c = true) indent ∧ bullet b = true ∧
    ws ≠ [] ∧ Forall (λ c, isspace c = true) ws ∧ content ≠ [].
Proof.
  unfold bullet_re. intros HF.
  apply Forall2_cons_inv_l in HF as (indent & ? & [Hi _] & HF & ->).
  apply Forall2_cons_inv_l in HF as (bs & ? & [Hb Hb1] & HF & ->).
  apply Forall2_cons_inv_l in HF as (ws & ? & [Hw Hw1] & HF & ->).
  apply Forall2_cons_inv_l in HF as (content & ? & [Hc Hc1] & HF & ->).
  apply Forall2_nil_inv_l in HF as ->. simpl in *.
  destruct bs as [|b [|??]]; simplify_eq/=.
  apply Forall_cons in Hb as [Hb _].
  by exists indent, b, ws, content.
Qed.

Lemma bullet_match_Some line indent content :
  NL ∉ line → bullet_match line = Some (indent, content) →
  bullet_shape line indent content ∧
  (∀ c rest, content = c :: rest → isspace c = true → rest = []).
Proof.
  intros Hnl H. unfold bullet_match in H.
  destruct (match_seq bullet_re line) as [pieces|] eqn:E; [|done].
  pose proof (match_seq_sound _ _ _ E) as (HF & tail & Hline & Htail).
  apply bullet_pieces_inv in HF
    as (indent' & b & ws & content' & -> & Hi & Hb & Hw & Hws & Hc).
  simplify_eq/=.
  assert (tail = []) as ->.
  { apply at_end_no_newline; [done|]. intros Hin. apply Hnl.
    rewrite !elem_of_app. auto. }
  rewrite !app_nil_r in *.
  split; [by exists b, ws|].
  intros c rest -> Hc'.
  destruct rest as [|d rest]; [done|]. exfalso.
  (* the run of whitespace after the bullet would have been longer *)
  unfold bullet_re in E. cbn [match_seq rep cls] in E.
  destruct (greedy space _ _) as [[w0 r0]|] eqn:E0 in E; simplify_eq/=.
  apply greedy_sound in E0 as (s1 & Hs1 & _ & Hk1).
  apply (inj (app indent)) in Hs1. subst s1. simpl in Hk1.
  rewrite Hb in Hk1.
  destruct ws as [|c0 ws]; [done|]. simpl in Hk1.
  apply Forall_cons in Hws as [Hc0 Hws]. unfold space in Hk1 at 1.
  rewrite Hc0 in Hk1.
  destruct (greedy space _ _) as [[w1 r1]|] eqn:E1 in Hk1; simplify_eq/=.
  pose proof (greedy_longest _ _ _ _ _ (ws ++ [c]) (d :: rest) E1) as Hlen.
  rewrite length_app in Hlen. simpl in Hlen.
  enough (length ws + 1 ≤ length ws) by lia. apply Hlen.
  - by rewrite <- (assoc_L (++)).
  - apply Forall_app. split; [done|]. by repeat constructor.
  - assert (Forall2 piece_ok [Item dot Plus] [d :: rest]) as HF.
    { constructor; [|constructor]. split; [|done]. simpl. apply dot_all.
      intros Hin. apply Hnl.
      rewrite !elem_of_app, !elem_of_cons, !elem_of_app, !elem_of_cons.
      apply elem_of_cons in Hin. tauto. }
    pose proof (match_seq_complete _ _ [] HF eq_refl) as Hk.
    cbn [concat] in Hk. rewrite !app_nil_r in Hk. exact Hk.
Qed.

Lemma bullet_match_None line indent content :
  NL ∉ line → bullet_match line = None → ¬ bullet_shape line indent content.
Proof.
  intros Hnl H (b & ws & -> & Hind & Hb & Hws & Hsp & Hc).
  assert (NL ∉ content) as Hnc.
  { intros Hin. apply Hnl. rewrite elem_of_app, elem_of_cons, elem_of_app. auto. }
  pose proof (match_seq_complete bullet_re [indent; [b]; ws; content] []
                (bullet_shape_pieces _ _ _ _ Hind Hb Hws Hsp Hc Hnc) eq_refl)
    as [r Hr].
  cbn [concat] in Hr. rewrite !app_nil_r in Hr. cbn [app] in Hr.
  pose proof (match_seq_sound _ _ _ Hr) as (HF & _).
  unfold bullet_match in H. rewrite Hr in H.
  apply bullet_pieces_inv in HF as (? & ? & ? & ? & -> & _). done.
Qed.

(** ** The option indexer *)

Lemma found_snoc lines x :
  found (lines ++ [x]) =
  found lines ++ match bullet_match x with Some ic => [ic] | None => [] end.
Proof. unfold found. rewrite omap_app. simpl. by destruct (bullet_match x). Qed.

Lemma options_of_fresh ms opts :
  options_of ms opts → opts !! str_of_nat (S (length ms)) = None.
Proof.
  intros Hopts. destruct (opts !! _) as [v|] eqn:E; [|done].
  apply Hopts in E as (n & ic & Hn & Hk & _).
  apply str_of_nat_inj in Hk. apply lookup_lt_Some in Hn. lia.
Qed.

Lemma options_of_snoc ms opts indent content :
  options_of ms opts →
  options_of (ms ++ [(indent, content)])
             (<[str_of_nat (S (length ms)) := content]> opts).
Proof.
  intros Hopts k v. rewrite lookup_insert_Some. split.
  - intros [[<- <-]|[Hne Hk]].
    + exists (length ms), (indent, content).
      split; [|done]. apply lookup_snoc_Some. by right.
    + apply Hopts in Hk as (n & ic & Hn & -> & ->).
      exists n, ic. split; [|done]. apply lookup_snoc_Some. left.
      split; [|done]. by eapply lookup_lt_Some.
  - intros (n & ic & Hn & -> & ->).
    apply lookup_snoc_Some in Hn as [[Hlt Hn]|[-> <-]].
    + right. split.
      * intros ?%str_of_nat_inj. lia.
      * apply Hopts. by exists n, ic.
    + by left.
Qed.

Lemma fmt_fold lines :
  let st := foldl fmt_line (FmtState ∅ 1 []) lines in
  option_num st = S (length (found lines)) ∧
  options_of (found lines) (fmt_options st) ∧
  size (fmt_options st) = length (found lines) ∧
  length (formatted_lines st) = length lines ∧
  ∀ i line, lines !! i = Some line →
            formatted_lines st !! i = Some (render (take i lines) line).
Proof.
  induction lines as [|x lines IH] using rev_ind; simpl.
  - split_and!; try done. intros k v. rewrite lookup_empty. split; [done|].
    by intros (n & ic & ? & _).
  - rewrite foldl_app. simpl.
    destruct IH as (Hnum & Hopts & Hsize & Hlen & Hfmt).
    set (st := foldl fmt_line (FmtState ∅ 1 []) lines) in *.
    rewrite found_snoc. unfold fmt_line.
    assert (∀ out i line,
      (lines ++ [x]) !! i = Some line →
      out = render lines x →
      (formatted_lines st ++ [out]) !! i =
        Some (render (take i (lines ++ [x])) line)) as Hstep.
    { intros out i line Hi ->.
      apply lookup_snoc_Some in Hi as [[Hlt Hi]|[-> <-]].
      - rewrite lookup_app_l by lia.
        rewrite take_app_le by lia. by apply Hfmt.
      - rewrite take_app_length. rewrite <- Hlen.
        apply lookup_snoc_Some. by right. }
    destruct (bullet_match x) as [[indent content]|] eqn:Hx; simpl.
    + rewrite Hnum, !length_app. simpl.
      split_and!; [lia| |  | lia | ].
      * by apply options_of_snoc.
      * rewrite map_size_insert_None by by apply options_of_fresh. lia.
      * intros i line Hi. eapply Hstep; [done|].
        unfold render. by rewrite Hx.
    + rewrite app_nil_r, !length_app. simpl.
      split_and!; [done|done|done|lia|].
      intros i line Hi. eapply Hstep; [done|].
      unfold render. by rewrite Hx.
Qed.

Section OptionIndexer.
Context {W : Type}.

End OptionIndexer.

Section ToolUse.
Context {W : Type}.
Implicit Types (s : @Agent W) (tc : ToolCall).

Lemma bind_Ok {A B} (m : M A) (f : A → M B) s a s' :
  m s = (Ok a, s') → (m ≫= f) s = f a s'.
Proof. intros H. unfold mbind, M_bind. by rewrite H. Qed.

Lemma bind_Raise {A B} (m : M A) (f : A → M B) s e s' :
  m s = (Raise e, s') → (m ≫= f) s = (Raise e, s').
Proof. intros H. unfold mbind, M_bind. by rewrite H. Qed.

Lemma same_setup_refl s : same_setup s s.
Proof. by repeat split. Qed.

Lemma same_setup_trans s1 s2 s3 :
  same_setup s1 s2 → same_setup s2 s3 → same_setup s1 s3.
Proof. unfold same_setup. intros (?&?&?&?&?) (?&?&?&?&?). split_and!; congruence. Qed.

Lemma run_tool_call_cases tc s :
  ∃ s', same_setup s s' ∧ last_options s' = last_options s ∧
        checkpointer s' = checkpointer s ∧
    match find_tool (tools s) (tc_name tc) with
    | None => run_tool_call tc s = (Ok (not_found_message tc), s')
    | Some tool =>
        match (invoke_tool s tool (tc_args tc) (world s)).1 with
        | Ok result =>
            run_tool_call tc s = (Ok (ToolMessage result (tc_id tc)), s')
        | Raise (Exception _ msg) =>
            run_tool_call tc s = (Ok (tool_error_message tc msg), s')
        | Raise KeyboardInterrupt =>
            run_tool_call tc s = (Raise KeyboardInterrupt, s')
        end
    end.
Proof.
  unfold run_tool_call. unfold_M. simpl.
  destruct (find_tool (tools s) (tc_name tc)) as [tool|]; simpl.
  - destruct (invoke_tool _ tool (tc_args tc) (world s)) as [[result|[cls msg|]] w]
      eqn:E; simpl; eexists; (split_and!; [| | |reflexivity]); by repeat split.
  - eexists; (split_and!; [| | |reflexivity]); by repeat split.
Qed.

Lemma invoke_tool_same_setup s s' tool args w :
  same_setup s s' → invoke_tool s' tool args w = invoke_tool s tool args w.
Proof. intros (_ & Hm & _). unfold invoke_tool. by rewrite Hm. Qed.

Lemma tool_loop_spec tcs acc s :
  let r := tool_loop tcs acc s in
  same_setup s r.2 ∧ last_options r.2 = last_options s ∧
  checkpointer r.2 = checkpointer s ∧
  match r.1 with
  | Ok msgs => ∃ new, msgs = acc ++ new ∧ Forall2 answers tcs new
  | Raise e => e = KeyboardInterrupt ∧ interrupted_by s tcs
  end.
Proof.
  revert acc s. induction tcs as [|tc tcs IH]; intros acc s; simpl.
  - split_and!; try done; try apply same_setup_refl.
    exists []. by rewrite app_nil_r.
  - destruct (run_tool_call_cases tc s) as (s1 & Hsetup & Hopt & Hcp & Hcase).
    assert (∀ m, run_tool_call tc s = (Ok m, s1) → answers tc m →
      let r := tool_loop (tc :: tcs) acc s in
      same_setup s r.2 ∧ last_options r.2 = last_options s ∧
      checkpointer r.2 = checkpointer s ∧
      match r.1 with
      | Ok msgs => ∃ new, msgs = acc ++ new ∧ Forall2 answers (tc :: tcs) new
      | Raise e => e = KeyboardInterrupt ∧ interrupted_by s (tc :: tcs)
      end) as Hok.
    { intros m Hm Hans. simpl. rewrite (bind_Ok _ _ _ _ _ Hm).
      destruct (IH (acc ++ [m]) s1) as (Hs & Ho & Hc & Hr).
      split_and!; [by eapply same_setup_trans|congruence|congruence|].
      destruct (tool_loop tcs (acc ++ [m]) s1).1 as [msgs|e].
      - destruct Hr as (new & -> & HF). exists (m :: new).
        split; [by rewrite <- (assoc_L (++))|by constructor].
      - destruct Hr as (-> & tc' & tool & w & Hin & Hfind & Hint).
        split; [done|]. exists tc', tool, w.
        destruct Hsetup as (Ht & ?). rewrite Ht in Hfind.
        rewrite (invoke_tool_same_setup s s1) in Hint by done.
        split_and!; [by right|done|done]. }
    destruct (find_tool (tools s) (tc_name tc)) as [tool|] eqn:Hfind.
    + destruct (invoke_tool s tool (tc_args tc) (world s)).1
        as [result|[cls msg|]] eqn:Hinv.
      * apply Hok in Hcase; [done | by eexists].
      * apply Hok in Hcase; [done | by eexists].
      * rewrite (bind_Raise _ _ _ _ _ Hcase). simpl.
        split_and!; try done.
        exists tc, tool, (world s). split_and!; [by left|done|done].
    + apply Hok in Hcase; [done | by eexists].
Qed.

End ToolUse.

Section Graph.
Context {W : Type}.
Variable lower : pystr → pystr.
Implicit Types (s : @Agent W) (state : list Message).

Local Abbreviation workflow := (workflow (W:=W) lower).
Local Abbreviation model_response := (model_response (W:=W) lower).

Lemma format_with_numbers_frame (text : Content) s :
  let r := _format_with_numbers text s in
  same_setup s r.2 ∧ checkpointer r.2 = checkpointer s ∧
  world r.2 = world s ∧ console r.2 = console s ∧ ∃ out, r.1 = Ok out.
Proof.
  unfold _format_with_numbers. destruct (format_text _) as [result options].
  unfold_M. simpl. split_and!; try done. by eexists.
Qed.

Lemma model_response_cases state s :
  let r := model_response state s in
  same_setup s r.2 ∧ checkpointer r.2 = checkpointer s ∧
  match r.1 with
  | Ok update =>
      ∃ messages c tcs w,
        prompt_messages lower state = Ok messages ∧
        llm_with_tools s messages (world s) = (Ok (c, tcs), w) ∧
        update = [AIMessage c tcs]
  | Raise e =>
      prompt_messages lower state = Raise e ∨
      ∃ messages w,
        prompt_messages lower state = Ok messages ∧
        llm_with_tools s messages (world s) = (Raise e, w)
  end.
Proof.
  destruct (prompt_messages lower state) as [messages|e] eqn:Hp.
  2:{ assert (model_response state s = (Raise e, s)) as ->.
      { unfold model_response. rewrite Hp. reflexivity. }
      simpl. split_and!; try done; try apply same_setup_refl. by left. }
  destruct (llm_with_tools s messages (world s)) as [[[c tcs]|e] w] eqn:Hl.
  2:{ assert (model_response state s = (Raise e, set_world w s)) as ->.
      { unfold model_response. rewrite Hp. unfold_M. by rewrite Hl. }
      simpl. split_and!; try done. right. by exists messages, w. }
  destruct (content_truthy c) eqn:Hc.
  - destruct (format_with_numbers_frame c (set_world w s))
      as (Hs & Hcp & _ & _ & out & Hout).
    destruct (_format_with_numbers c (set_world w s)) as [r1 s1] eqn:Hf.
    simpl in Hs, Hcp, Hout. subst r1.
    assert (model_response state s =
            (Ok [AIMessage c tcs],
             set_console (console s1 ++
               [Panel out (lit "[bold cyan]Assistant[/bold cyan]")]) s1))
      as ->.
    { unfold model_response. rewrite Hp. unfold_M. rewrite Hl.
      cbn [fst snd]. rewrite Hc, Hf. reflexivity. }
    simpl. split_and!; [ | done | by exists messages, c, tcs, w].
    destruct Hs as (?&?&?&?&?). by repeat split.
  - assert (model_response state s = (Ok [AIMessage c tcs], set_world w s))
      as ->.
    { unfold model_response. rewrite Hp. unfold_M. rewrite Hl.
      cbn [fst snd]. rewrite Hc. reflexivity. }
    simpl. split_and!; try done. by exists messages, c, tcs, w.
Qed.

Lemma model_response_update state s update s' :
  model_response state s = (Ok update, s') →
  ∃ c tcs, update = [AIMessage c tcs].
Proof.
  intros H. pose proof (model_response_cases state s) as (_ & _ & Hr).
  rewrite H in Hr. simpl in Hr.
  destruct Hr as (_ & c & tcs & _ & _ & _ & ->). by exists c, tcs.
Qed.

Lemma next_after_model state c tcs :
  next_node workflow (lit "model_response") (state ++ [AIMessage c tcs]) =
  Ok (if bool_decide (tcs = []) then END else lit "tool_use").
Proof.
  unfold next_node.
  change (assoc (lit "model_response") (branches workflow))
    with (Some (check_tool_use,
                [(lit "tool_use", lit "tool_use"); (END, END)])).
  unfold check_tool_use. rewrite last_snoc.
  by destruct tcs.
Qed.

Lemma next_after_tool state :
  next_node workflow (lit "tool_use") state = Ok (lit "model_response").
Proof. reflexivity. Qed.

Lemma run_graph_END thread limit state :
  run_graph workflow thread limit END state = mret state.
Proof. by destruct limit. Qed.

Lemma run_graph_model thread n state :
  run_graph workflow thread (S n) (lit "model_response") state =
  (update ← model_response state;
   put_checkpoint thread (add_messages state update) ;;
   next ← of_outcome (next_node workflow (lit "model_response")
                        (add_messages state update));
   run_graph workflow thread n next (add_messages state update)).
Proof. reflexivity. Qed.

Lemma run_graph_tool thread n state :
  run_graph workflow thread (S n) (lit "tool_use") state =
  (update ← tool_use state;
   put_checkpoint thread (add_messages state update) ;;
   next ← of_outcome (next_node workflow (lit "tool_use")
                        (add_messages state update));
   run_graph workflow thread n next (add_messages state update)).
Proof. reflexivity. Qed.

Lemma put_checkpoint_then {B} thread state (k : M B) s :
  (put_checkpoint thread state ;; k) s =
  k (set_checkpointer (<[thread := state]> (checkpointer s)) s).
Proof. reflexivity. Qed.

Lemma of_outcome_Ok {A B} (a : A) (f : A → M B) s :
  (of_outcome (Ok a) ≫= f) s = f a s.
Proof. reflexivity. Qed.

Lemma tool_use_last state c tcs :
  tool_use (W:=W) (state ++ [AIMessage c tcs]) = tool_loop tcs [].
Proof. unfold tool_use. by rewrite last_snoc. Qed.

Lemma run_graph_turns thread limit :
  (∀ state s,
     match (run_graph workflow thread limit (lit "model_response") state s).1
     with
     | Ok final => ∃ new, final = state ++ new ∧ turns new
     | Raise _ => True
     end) ∧
  (∀ state c tcs s, tcs ≠ [] →
     match (run_graph workflow thread limit (lit "tool_use")
              (state ++ [AIMessage c tcs]) s).1
     with
     | Ok final =>
         ∃ results rest,
           final = (state ++ [AIMessage c tcs]) ++ results ++ rest ∧
           Forall2 answers tcs results ∧ turns rest
     | Raise _ => True
     end).
Proof.
  induction limit as [|n [IHm IHt]]; [by split|]. split.
  - intros state s. rewrite run_graph_model.
    destruct (model_response state s) as [[update|e] s1] eqn:Hm.
    2:{ by rewrite (bind_Raise _ _ _ _ _ Hm). }
    rewrite (bind_Ok _ _ _ _ _ Hm).
    apply model_response_update in Hm as (c & tcs & ->).
    rewrite put_checkpoint_then.
    unfold add_messages. rewrite next_after_model, of_outcome_Ok.
    destruct tcs as [|tc tcs].
    + rewrite bool_decide_eq_true_2 by done. rewrite run_graph_END. simpl.
      exists [AIMessage c []]. split; [done|constructor].
    + rewrite bool_decide_eq_false_2 by done.
      match goal with |- context [run_graph _ _ _ _ _ ?s'] =>
        specialize (IHt state c (tc :: tcs) s' ltac:(done)) end.
      destruct (run_graph _ _ _ _ _ _).1 as [final|]; [|done].
      destruct IHt as (results & rest & -> & HF & Hrest).
      exists (AIMessage c (tc :: tcs) :: results ++ rest).
      split; [by rewrite <- (assoc_L (++))|]. by constructor.
  - intros state c tcs s Htcs. rewrite run_graph_tool, tool_use_last.
    pose proof (tool_loop_spec tcs [] s) as (_ & _ & _ & Hr).
    destruct (tool_loop tcs [] s) as [[msgs|e] s1] eqn:Hl.
    2:{ by rewrite (bind_Raise _ _ _ _ _ Hl). }
    rewrite (bind_Ok _ _ _ _ _ Hl). simpl in Hr.
    destruct Hr as (new & -> & HF). simpl.
    rewrite put_checkpoint_then, next_after_tool, of_outcome_Ok.
    match goal with |- context [run_graph _ _ _ _ ?st ?s'] =>
      specialize (IHm st s') end.
    destruct (run_graph _ _ _ _ _ _).1 as [final|]; [|done].
    destruct IHm as (rest & -> & Hrest).
    exists new, rest. split_and!; [|done|done].
    unfold add_messages. by rewrite <- (assoc_L (++)).
Qed.

Lemma agent_ainvoke_unfold limit input config s :
  agent_ainvoke limit workflow input config s =
  let thread := configurable_thread_id config in
  let state := add_messages (default [] (checkpointer s !! thread)) input in
  run_graph workflow thread (default limit (recursion_limit config))
    (lit "model_response") state
    (set_checkpointer (<[thread := state]> (checkpointer s)) s).
Proof. reflexivity. Qed.

End Graph.

Lemma answers_not_ai tc c tcs : ¬ answers tc (AIMessage c tcs).
Proof. by intros [text ?]. Qed.

Lemma turns_answered new :
  turns new →
  ∀ c tcs tc, AIMessage c tcs ∈ new → tc ∈ tcs →
              ∃ text, ToolMessage text (tc_id tc) ∈ new.
Proof.
  induction 1 as [c0|c0 tcs0 results rest Hne HF _ IH]; intros c tcs tc Hin Htc.
  - apply list_elem_of_singleton in Hin. simplify_eq. by apply elem_of_nil in Htc.
  - apply elem_of_cons in Hin as [Heq|Hin].
    + simplify_eq.
      apply list_elem_of_lookup in Htc as [i Hi].
      destruct (Forall2_lookup_l _ _ _ _ _ HF Hi) as (m & Hm & text & ->).
      exists text. right. apply elem_of_app. left.
      by eapply list_elem_of_lookup_2.
    + apply elem_of_app in Hin as [Hin|Hin].
      * apply list_elem_of_lookup in Hin as [i Hi].
        destruct (Forall2_lookup_r _ _ _ _ _ HF Hi) as (tc' & _ & Hans).
        by apply answers_not_ai in Hans.
      * destruct (IH _ _ _ Hin Htc) as [text Ht].
        exists text. right. apply elem_of_app. by right.
Qed.

Section Claims.
Context {W : Type}.
Variable lower : pystr → pystr.
Variable DEFAULT_RECURSION_LIMIT : nat.
Implicit Types (s : @Agent W) (state : list Message).

Local Abbreviation workflow := (workflow (W:=W) lower).
Local Abbreviation model_response := (model_response (W:=W) lower).
Local Abbreviation agent_ainvoke :=
  (agent_ainvoke (W:=W) DEFAULT_RECURSION_LIMIT).

(** C1: the graph built by [_setup_workflow] starts at
    [model_response]; after [model_response], whose update is one
    assistant message, the next node is [tool_use] when that message
    has a non-empty [tool_calls] and [END] when it has none, where the
    run returns; after [tool_use] the next node is [model_response],
    whatever the state. *)
Theorem check_tool_use_routes :
  (∀ state c tcs,
     next_node workflow (lit "model_response")
       (add_messages state [AIMessage c tcs]) =
     Ok (if bool_decide (tcs = []) then END else lit "tool_use")) ∧
  (∀ state s,
     match (model_response state s).1 with
     | Ok update => ∃ c tcs, update = [AIMessage c tcs]
     | Raise _ => True
     end) ∧
  (∀ state, next_node workflow (lit "tool_use") state
            = Ok (lit "model_response")) ∧
  lit "tool_use" ≠ END ∧
  entry_point workflow = Some (lit "model_response") ∧
  (∀ thread limit state s,
     run_graph workflow thread limit END state s = (Ok state, s)).
Proof.
  split_and!.
  - intros. apply next_after_model.
  - intros state s.
    destruct (model_response state s) as [[update|e] s'] eqn:E; [|done].
    by eapply model_response_update.
  - intros. apply next_after_tool.
  - done.
  - done.
  - intros. by rewrite run_graph_END.
Qed.



End Claims.

Section Loop.
Context {W : Type}.
Variable lower : pystr → pystr.
Variable unicode_isdigit : N → bool.
Variable getcwd : W → pystr.
Variable path_join : pystr → pystr → pystr.
Variable DEFAULT_RECURSION_LIMIT : nat.
Variable push_folder : @Tool W.
Implicit Types (s : @Agent W) (user_input : pystr).

Local Abbreviation is_request := (is_request lower).
Local Abbreviation isdigit := (isdigit unicode_isdigit).
Local Abbreviation select_option := (select_option (W:=W) unicode_isdigit).
Local Abbreviation resolved := (resolved unicode_isdigit).
Local Abbreviation dispatch :=
  (dispatch lower getcwd path_join DEFAULT_RECURSION_LIMIT push_folder).
Local Abbreviation direct_push :=
  (direct_push lower getcwd path_join push_folder).
Local Abbreviation run_body :=
  (run_body lower unicode_isdigit getcwd path_join DEFAULT_RECURSION_LIMIT
     push_folder).
Local Abbreviation run_iteration :=
  (run_iteration lower unicode_isdigit getcwd path_join
     DEFAULT_RECURSION_LIMIT push_folder).
Local Abbreviation run :=
  (run lower unicode_isdigit getcwd path_join DEFAULT_RECURSION_LIMIT
     push_folder).

Lemma select_option_spec user_input s :
  select_option user_input s =
  match last_options s !! strip user_input with
  | Some selected_option =>
      if isdigit (strip user_input)
      then (Ok selected_option,
            set_console
              (console s ++ [Print (lit "[green]Selected:[/green] "
                                      ++ selected_option ++ [NL])]) s)
      else (Ok user_input, s)
  | None => (Ok user_input, s)
  end.
Proof.
  unfold select_option. unfold_M.
  destruct (last_options s !! strip user_input) as [o|] eqn:E.
  - rewrite bool_decide_eq_true_2 by (apply elem_of_dom; by eexists).
    rewrite andb_true_r. by destruct (isdigit (strip user_input)).
  - rewrite bool_decide_eq_false_2, andb_false_r; [done|].
    intros [? ?]%elem_of_dom. congruence.
Qed.

Lemma run_body_request user_input s :
  is_request user_input →
  run_body (Line user_input) s =
  (print (Print []) ;; select_option user_input ≫= dispatch) s.
Proof.
  intros (H1 & H2 & H3 & H4 & H5). unfold run_body.
  rewrite (bool_decide_eq_false_2 _ H1), (bool_decide_eq_false_2 _ H2).
  simpl. by rewrite H3, H4, H5.
Qed.


Lemma direct_push_spec user_input s :
  let folder_path :=
    if contains (lit "codeassistent") (lower user_input)
    then path_join (getcwd (world s)) (lit "codeAssistent")
    else getcwd (world s) in
  let r := invoke push_folder (push_folder_args folder_path) (world s) in
  ∃ s',
    direct_push user_input s =
      (match r.1 with Ok _ => Ok () | Raise e => Raise e end, s') ∧
    world s' = r.2 ∧ checkpointer s' = checkpointer s ∧
    last_options s' = last_options s ∧ same_setup s s'.
Proof.
  intros folder_path r. unfold direct_push. unfold_M. simpl.
  fold folder_path. fold r. destruct r as [[result|e] w]; simpl;
    eexists; (split_and!; [reflexivity|..]); by repeat split.
Qed.

Lemma run_body_dispatch user_input s :
  is_request user_input →
  ∃ s1, run_body (Line user_input) s
        = dispatch (resolved (last_options s) user_input) s1 ∧
        world s1 = world s ∧ checkpointer s1 = checkpointer s ∧
        last_options s1 = last_options s ∧ same_setup s s1.
Proof.
  intros Hreq. rewrite run_body_request by done.
  change ((print (Print []) ;; select_option user_input ≫= dispatch) s)
    with (match select_option user_input
                  (set_console (console s ++ [Print []]) s) with
          | (Ok a, s') => dispatch a s'
          | (Raise e, s') => (Raise e, s')
          end).
  rewrite select_option_spec. unfold resolved. simpl.
  destruct (last_options s !! strip user_input); simpl;
    [destruct (isdigit _)|]; eexists; (split_and!; [reflexivity|..]);
    by repeat split.
Qed.

Lemma dispatch_graph user_input s :
  is_push_folder lower user_input = false →
  dispatch user_input s =
  match agent_ainvoke DEFAULT_RECURSION_LIMIT (workflow lower)
          [HumanMessage user_input] (run_config s) s with
  | (Ok _, s') => (Ok Continue, s')
  | (Raise e, s') => (Raise e, s')
  end.
Proof. intros H. unfold dispatch. by rewrite H. Qed.


Lemma initialize_cases get_mcp_tools saved s :
  match initialize getcwd path_join get_mcp_tools saved s with
  | (Ok _, s') => last_options s' = quick_start_options
  | (Raise e, _) =>
      e = KeyboardInterrupt ∧
      (get_mcp_tools (world s)).1 = Raise KeyboardInterrupt
  end.
Proof.
  unfold initialize, _display_quick_start. unfold_M. simpl.
  destruct (get_mcp_tools (world s)) as [[[|t ts]|[cls msg|]] w]; by simpl.
Qed.

Lemma isdigit_ascii (text : pystr) :
  (∀ c, (48 ≤ c ≤ 57)%N → unicode_isdigit c = true) →
  text ≠ [] → Forall (λ c, (48 ≤ c ≤ 57)%N) text →
  isdigit text = true.
Proof.
  intros Hd Hne Hall. unfold isdigit.
  rewrite bool_decide_eq_false_2 by done. simpl.
  apply forallb_forall. intros c Hin. apply Hd.
  rewrite Forall_forall in Hall. apply Hall. by apply list_elem_of_In.
Qed.

(** C10: [initialize] ends with [_display_quick_start], which sets
    [self.last_options] to the five quick-start options; so before any
    response has been formatted the inputs [1] to [5] resolve to their
    quick-start texts. ([initialize] returns unless the MCP loader
    raises [KeyboardInterrupt]; digits are digits for
    [str.isdigit].) *)
Theorem quick_start_numbers_resolve get_mcp_tools saved s :
  (∀ c, (48 ≤ c ≤ 57)%N → unicode_isdigit c = true) →
  match initialize getcwd path_join get_mcp_tools saved s with
  | (Ok _, s') =>
      last_options s' = quick_start_options ∧
      Forall (λ kv : string * string,
                resolved (last_options s') (lit kv.1) = lit kv.2 ∧
                (select_option (lit kv.1) s').1 = Ok (lit kv.2))
        [ ("1", "List all files in current directory");
          ("2", "Show available tools");
          ("3", "Run the tests");
          ("4", "Read the README.md file");
          ("5", "Search for code in the project") ]%string
  | (Raise e, _) =>
      e = KeyboardInterrupt ∧
      (get_mcp_tools (world s)).1 = Raise KeyboardInterrupt
  end.
Proof.
  intros Hd. pose proof (initialize_cases get_mcp_tools saved s) as Hi.
  destruct (initialize _ _ _ _ _) as [[[]|e] s']; [|done].
  split; [done|].
  assert (∀ k v : string,
            strip (lit k) = lit k → lit k ≠ [] →
            Forall (λ c, (48 ≤ c ≤ 57)%N) (lit k) →
            quick_start_options !! lit k = Some (lit v) →
            resolved (last_options s') (lit k) = lit v ∧
            (select_option (lit k) s').1 = Ok (lit v)) as Hone.
  { intros k v Hstrip Hne Hall Hlook.
    assert (resolved (last_options s') (lit k) = lit v) as Hres.
    { unfold resolved. rewrite Hstrip, Hi, Hlook.
      by rewrite isdigit_ascii. }
    split; [done|].
    rewrite select_option_spec. revert Hres. unfold resolved.
    destruct (last_options s' !! strip (lit k)); [|by intros ->].
    destruct (isdigit _); by intros ->. }
  repeat (apply Forall_cons; split;
          [apply Hone; [by vm_compute|by vm_compute| |by vm_compute];
           repeat constructor; by vm_compute|]).
  constructor.
Qed.

Lemma run_iteration_exception p s cls msg s1 :
  run_body p s = (Raise (Exception cls msg), s1) →
  run_iteration p s
  = (Continue, set_console (console s1 ++ error_report cls msg) s1).
Proof. intros Hbody. unfold run_iteration. by rewrite Hbody. Qed.

(** An exception a node raises leaves the run as it is: the graph
    runner has no handler. *)
Lemma node_error_leaves_run thread n state s e s' :
  model_response lower state s = (Raise e, s') →
  run_graph (workflow lower) thread (S n) (lit "model_response") state s
  = (Raise e, s').
Proof.
  intros H. rewrite run_graph_model. by rewrite (bind_Raise _ _ _ _ _ H).
Qed.


End Loop.

Section SystemMessage.
Variable lower : pystr → pystr.

Lemma with_system_message_replaces old m rest :
  with_system_message (SystemMessage old :: m :: rest)
  = Ok (system_message :: m :: rest).
Proof. reflexivity. Qed.

Lemma with_system_message_prepends m rest :
  is_system m = false →
  with_system_message (m :: rest) = Ok (system_message :: m :: rest).
Proof.
  intros Hm. unfold with_system_message.
  destruct rest; simpl; [done|]. by destruct m.
Qed.

Lemma with_system_message_last state m :
  ∃ messages, with_system_message (state ++ [m]) = Ok messages ∧
              last messages = Some m.
Proof.
  unfold with_system_message. case_bool_decide as Hlen.
  - eexists. split; [done|]. by rewrite last_cons, last_snoc.
  - destruct state as [|h state]; [done|]. simpl.
    destruct h; eexists; (split; [done|]);
      by rewrite ?last_cons, last_snoc.
Qed.

Lemma prompt_messages_ok state m text :
  message_content m = Text text →
  ∃ messages, prompt_messages lower (state ++ [m]) = Ok messages.
Proof.
  intros Hm. unfold prompt_messages.
  destruct (with_system_message_last state m) as (messages & -> & Hlast).
  unfold force_tool_use. rewrite Hlast, Hm.
  destruct (existsb _ _); by eexists.
Qed.

Lemma count_system_cons m messages :
  count_system (m :: messages)
  = (if is_system m then 1 else 0) + count_system messages.
Proof.
  unfold count_system. rewrite filter_cons.
  destruct (is_system m); by case_decide.
Qed.

Lemma count_system_none messages :
  Forall (λ m, is_system m = false) messages → count_system messages = 0.
Proof.
  induction 1 as [|m messages Hm _ IH]; [done|].
  by rewrite count_system_cons, Hm, IH.
Qed.

(** Everywhere else the instruction comes first and is the only System
    message: for a conversation that has no System message after its
    first message and is not a single System message. *)
Lemma with_system_message_count m rest :
  Forall (λ m, is_system m = false) rest →
  (rest = [] → is_system m = false) →
  ∃ messages,
    with_system_message (m :: rest) = Ok messages ∧
    head messages = Some system_message ∧
    count_system messages = 1.
Proof.
  intros Hrest Hone. destruct rest as [|m' rest].
  - specialize (Hone eq_refl). rewrite with_system_message_prepends by done.
    eexists. split_and!; [done..|].
    by rewrite !count_system_cons, Hone.
  - destruct (is_system m) eqn:Hm.
    + destruct m; try done. rewrite with_system_message_replaces.
      eexists. split_and!; [done..|].
      rewrite count_system_cons. rewrite count_system_none; [done|].
      exact Hrest.
    + rewrite with_system_message_prepends by done.
      eexists. split_and!; [done..|].
      rewrite !count_system_cons, Hm. simpl.
      apply Forall_cons in Hrest as [-> Hrest].
      by rewrite count_system_none.
Qed.

End SystemMessage.


(** ** A backend that never stops asking for tools *)

Section Looping.
Import Sample.
Implicit Types (s : @Agent nat) (state : list Message).

Local Abbreviation workflow := (workflow (W:=nat) ascii_lower).
Local Abbreviation model_response := (model_response (W:=nat) ascii_lower).

Lemma looping_model_turn state m text s :
  same_setup (agent_with looping_llm) s →
  message_content m = Text text →
  ∃ s', model_response (state ++ [m]) s
        = (Ok [AIMessage (Text []) [looping_call]], s') ∧
        same_setup (agent_with looping_llm) s'.
Proof.
  intros Hs Hm.
  pose proof (model_response_cases ascii_lower (state ++ [m]) s)
    as (Hs' & _ & Hr).
  destruct (prompt_messages_ok ascii_lower state m text Hm) as [msgs Hp].
  assert (∀ msgs' w, llm_with_tools s msgs' w
                     = (Ok (Text [], [looping_call]), S w)) as Hllm.
  { intros. unfold llm_with_tools. destruct Hs as (_ & _ & -> & _). done. }
  destruct (model_response (state ++ [m]) s) as [[update|e] s'] eqn:E;
    simpl in *.
  - destruct Hr as (msgs' & c & tcs & w & _ & Hl & ->).
    rewrite Hllm in Hl. simplify_eq.
    exists s'. split; [done|]. by eapply same_setup_trans.
  - destruct Hr as [Hr|(msgs' & w & _ & Hl)]; [congruence|].
    rewrite Hllm in Hl. done.
Qed.

Lemma looping_tool_turn s :
  same_setup (agent_with looping_llm) s →
  ∃ text s', tool_loop [looping_call] [] s
             = (Ok [ToolMessage text (lit "call_1")], s') ∧
             same_setup (agent_with looping_llm) s'.
Proof.
  intros Hs.
  pose proof (tool_loop_spec [looping_call] [] s) as (Hs' & _ & _ & Hr).
  destruct (tool_loop [looping_call] [] s) as [[msgs|e] s'] eqn:E;
    simpl in *.
  - destruct Hr as (new & -> & HF).
    apply Forall2_cons_inv_l in HF as (m & new' & [text ->] & HF & ->).
    apply Forall2_nil_inv_l in HF as ->.
    exists text, s'. split; [done|]. by eapply same_setup_trans.
  - destruct Hr as (_ & tc & tool & w & Hin & Hfind & Hint).
    apply list_elem_of_singleton in Hin as ->.
    destruct Hs as (Ht & Hmcp & _). rewrite Ht in Hfind.
    vm_compute in Hfind. simplify_eq.
    unfold invoke_tool in Hint. rewrite Hmcp in Hint. done.
Qed.

Lemma looping_run thread limit :
  (∀ state m text s,
     same_setup (agent_with looping_llm) s →
     message_content m = Text text →
     (run_graph workflow thread limit (lit "model_response")
        (state ++ [m]) s).1 = Raise GraphRecursionError) ∧
  (∀ state s,
     same_setup (agent_with looping_llm) s →
     (run_graph workflow thread limit (lit "tool_use")
        (state ++ [AIMessage (Text []) [looping_call]]) s).1
     = Raise GraphRecursionError).
Proof.
  induction limit as [|n [IHm IHt]]; [by split|]. split.
  - intros state m text s Hs Hm. rewrite run_graph_model.
    destruct (looping_model_turn state m text s Hs Hm) as (s' & Hr & Hs').
    rewrite (bind_Ok _ _ _ _ _ Hr), put_checkpoint_then.
    unfold add_messages. rewrite next_after_model, of_outcome_Ok.
    rewrite bool_decide_eq_false_2 by done.
    apply IHt. destruct Hs' as (?&?&?&?&?). by repeat split.
  - intros state s Hs. rewrite run_graph_tool, tool_use_last.
    destruct (looping_tool_turn s Hs) as (text & s' & Hr & Hs').
    rewrite (bind_Ok _ _ _ _ _ Hr), put_checkpoint_then.
    rewrite next_after_tool, of_outcome_Ok. unfold add_messages.
    eapply IHm; [|done]. destruct Hs' as (?&?&?&?&?). by repeat split.
Qed.


End Looping.

(** ** The statements at the sample instance *)

Example bullet_match_dash :
  bullet_match (lit "  - run tests") = Some (lit "  ", lit "run tests").
Proof. reflexivity. Qed.

Example bullet_match_no_space : bullet_match (lit "-x") = None.
Proof. reflexivity. Qed.

Example bullet_match_trailing_blank :
  bullet_match (lit "*  ") = Some ([], lit " ").
Proof. reflexivity. Qed.

Example bullet_match_bare : bullet_match (lit "- ") = None.
Proof. reflexivity. Qed.

Example bullet_match_dot :
  bullet_match (8226%N :: lit " a  b") = Some ([], lit "a  b").
Proof. reflexivity. Qed.

(** Two bullets give two numbered lines, a map of two options and the
    tip. *)
Example two_bullets :
  let r := format_text (lit "Pick one:" ++ [NL] ++ lit "- first" ++ [NL]
                          ++ lit "  * second") in
  r.1 = lit "Pick one:" ++ [NL] ++ lit "**1.** first" ++ [NL]
          ++ lit "  **2.** second" ++ [NL; NL]
          ++ lit "*Tip: Type a number (1-2) to select an option*" ∧
  r.2 !! lit "1" = Some (lit "first") ∧
  r.2 !! lit "2" = Some (lit "second") ∧
  size r.2 = 2.
Proof. by vm_compute. Qed.

Example no_bullets :
  format_text (lit "**1.** first") = (lit "**1.** first", ∅).
Proof. by vm_compute. Qed.

(** A run of the graph that ends: one tool turn between two model
    turns. *)
Example polite_run_ends :
  (agent_ainvoke 25 (workflow Sample.ascii_lower) [HumanMessage (lit "hello")]
     (run_config (Sample.agent_with Sample.polite_llm))
     (Sample.agent_with Sample.polite_llm)).1
  = Ok [ HumanMessage (lit "hello");
         AIMessage (Text []) [Sample.call_of "echo" "call_1"];
         ToolMessage (lit "ok") (lit "call_1");
         AIMessage (Text (lit "- done")) [] ].
Proof. by vm_compute. Qed.

(** An MCP tool is awaited, any other tool is invoked. *)
Example remote_tool_is_awaited :
  (tool_use [AIMessage (Text []) [Sample.call_of "remote" "c1";
                                   Sample.call_of "echo" "c2"]]
     (Sample.agent_with Sample.polite_llm)).1
  = Ok [ToolMessage (lit "remote ok") (lit "c1");
        ToolMessage (lit "ok") (lit "c2")].
Proof. by vm_compute. Qed.




Lemma quick_start_numbers_resolve_witness :
  (select_option Sample.ascii_isdigit (lit "3")
     (initialize Sample.cwd Sample.posix_join (λ w, (Ok [], w)) ∅
        (Sample.agent_with Sample.polite_llm)).2).1
  = Ok (lit "Run the tests").
Proof.
  pose proof (quick_start_numbers_resolve (W:=nat) Sample.ascii_isdigit
                Sample.cwd Sample.posix_join (λ w, (Ok [], w)) ∅
                (Sample.agent_with Sample.polite_llm)) as H.
  destruct (initialize _ _ _ _ _) as [[[]|e] s'] eqn:E.
  - destruct H as (_ & HF).
    + intros c [H1 H2]. unfold Sample.ascii_isdigit.
      apply andb_true_intro. split; by apply N.leb_le.
    + apply Forall_cons in HF as [_ HF]. apply Forall_cons in HF as [_ HF].
      apply Forall_cons in HF as [[_ H3] _]. exact H3.
  - by vm_compute in E.
Defined.

(** * Further properties *)

Lemma json_ind (P : json → Prop) :
  P JNull → (∀ b, P (JBool b)) → (∀ n, P (JNum n)) → (∀ s, P (JStr s)) →
  (∀ items, Forall P items → P (JList items)) →
  (∀ d, Forall (λ kv, P kv.2) d → P (JDict d)) →
  ∀ v, P v.
Proof.
  intros Hnull Hbool Hnum Hstr Hlist Hdict.
  fix IH 1. intros [| b | n | s | items | d].
  - exact Hnull.
  - apply Hbool.
  - apply Hnum.
  - apply Hstr.
  - apply Hlist. induction items as [|x xs IHxs]; constructor.
    + apply IH.
    + exact IHxs.
  - apply Hdict. induction d as [|[k v] d IHd]; constructor.
    + apply IH.
    + exact IHd.
Qed.


(** The pass of [_clean_schema] is the two pops followed by the loop. *)
Lemma clean_schema_dict d :
  _clean_schema (JDict d) =
  JDict (map (λ kv, (kv.1, clean_value kv.2))
             (pop additional_key (pop schema_key d))).
Proof.
  simpl. f_equal. induction d as [|[k v] d IH]; [done|].
  unfold pop in *. rewrite filter_cons. simpl.
  destruct (decide (k = schema_key)) as [->|Hk].
  - rewrite bool_decide_eq_true_2 by done. simpl.
    destruct (decide (schema_key ≠ schema_key)); [done|]. exact IH.
  - rewrite (bool_decide_eq_false_2 _ Hk). simpl.
    destruct (decide (k ≠ schema_key)); [|done]. rewrite filter_cons. simpl.
    destruct (decide (k = additional_key)) as [->|Hk'].
    + rewrite bool_decide_eq_true_2 by done.
      destruct (decide (additional_key ≠ additional_key)); [done|]. exact IH.
    + rewrite (bool_decide_eq_false_2 _ Hk').
      destruct (decide (k ≠ additional_key)); [|done]. simpl. by rewrite IH.
Qed.

Lemma pop_keys key d :
  fst <$> pop key d = filter (λ k, k ≠ key) (fst <$> d).
Proof.
  unfold pop. induction d as [|[k v] d IH]; [done|].
  rewrite fmap_cons, !filter_cons. simpl.
  destruct (decide (k ≠ key)); [rewrite fmap_cons; simpl|]; by rewrite IH.
Qed.

Lemma pop_none key d : key ∉ fst <$> d → pop key d = d.
Proof.
  unfold pop. induction d as [|[k v] d IH]; [done|].
  rewrite fmap_cons, not_elem_of_cons. simpl. intros [Hk Hd].
  rewrite filter_cons. simpl.
  destruct (decide (k ≠ key)); [|done]. by rewrite IH.
Qed.

Lemma clean_keys d :
  ∃ d', _clean_schema (JDict d) = JDict d' ∧
        fst <$> d' =
        filter (λ k, k ≠ schema_key ∧ k ≠ additional_key) (fst <$> d).
Proof.
  rewrite clean_schema_dict. eexists. split; [done|].
  change (map ?f ?l) with (f <$> l).
  rewrite <- list_fmap_compose.
  change (fst ∘ _) with (@fst pystr json).
  rewrite !pop_keys. rewrite list_filter_filter.
  apply list_filter_iff. intros k. tauto.
Qed.

Lemma clean_dict_is_dict d : ∃ d', _clean_schema (JDict d) = JDict d'.
Proof. rewrite clean_schema_dict. by eexists. Qed.

Lemma clean_item_dict item d' :
  clean_item item = JDict d' → ∃ d, item = JDict d.
Proof. destruct item; try done. by eexists. Qed.

Lemma clean_value_dict value d' :
  clean_value value = JDict d' → ∃ d, value = JDict d.
Proof. destruct value; try done. by eexists. Qed.

Lemma clean_value_list value items' :
  clean_value value = JList items' →
  ∃ items, value = JList items ∧ items' = map clean_item items.
Proof.
  destruct value as [| | | |items|d]; try done.
  intros [= <-]. by eexists.
Qed.

Lemma clean_no_popped_key d d' :
  _clean_schema (JDict d) = JDict d' → no_popped_key d'.
Proof.
  destruct (clean_keys d) as (d'' & -> & Hk). intros [= <-].
  unfold no_popped_key. rewrite Hk.
  split; intros [[H1 H2] _]%list_elem_of_filter; done.
Qed.

Lemma in_clean_entries d key value' :
  (key, value') ∈ map (λ kv, (kv.1, clean_value kv.2))
                      (pop additional_key (pop schema_key d)) →
  ∃ value, (key, value) ∈ d ∧ value' = clean_value value.
Proof.
  intros Hin. apply list_elem_of_fmap in Hin as ([k v] & [= -> ->] & Hin).
  unfold pop in Hin.
  apply list_elem_of_filter in Hin as [_ Hin].
  apply list_elem_of_filter in Hin as [_ Hin]. by exists v.
Qed.

(** The statement proved by induction on the value: for the value and,
    when it is a list, for its items. *)
Lemma for_value_and_items_ind (P : json → Prop) :
  P JNull → (∀ b, P (JBool b)) → (∀ n, P (JNum n)) → (∀ s, P (JStr s)) →
  (∀ items, P (JList items)) →
  (∀ d, Forall (λ kv, for_value_and_items P kv.2) d → P (JDict d)) →
  ∀ v, P v.
Proof.
  intros Hnull Hbool Hnum Hstr Hlist Hdict v.
  enough (for_value_and_items P v) as [H _] by done.
  induction v as [| b | n | s | items IH | d IH] using json_ind.
  - by split.
  - by split.
  - by split.
  - by split.
  - split; [done|]. intros ? [= <-].
    eapply Forall_impl; [exact IH|]. by intros ? [? _].
  - split; [by apply Hdict|done].
Qed.

Lemma clean_visits v x :
  visits (_clean_schema v) x → no_popped_key x.
Proof.
  revert x. induction v as [| b | n | s | items | d IH]
    using for_value_and_items_ind; intros x Hx; try (by inversion Hx).
  rewrite clean_schema_dict in Hx.
  inversion Hx as [d0|d0 key d' x0 Hin Hv|d0 key items d' x0 Hin Hitem Hv];
    subst.
  - eapply clean_no_popped_key. apply clean_schema_dict.
  - apply in_clean_entries in Hin as (value & Hin & Hval).
    symmetry in Hval. destruct (clean_value_dict _ _ Hval) as [d1 ->].
    rewrite Forall_forall in IH. destruct (IH _ Hin) as [IHv _].
    apply IHv. simpl in Hval. simpl. by rewrite Hval.
  - apply in_clean_entries in Hin as (value & Hin & Hval).
    symmetry in Hval.
    destruct (clean_value_list _ _ Hval) as (items0 & -> & ->).
    apply list_elem_of_fmap in Hitem as (item & Hitem & Hin0).
    symmetry in Hitem. destruct (clean_item_dict _ _ Hitem) as [d1 ->].
    rewrite Forall_forall in IH. destruct (IH _ Hin) as [_ IHitems].
    specialize (IHitems items0 eq_refl). rewrite Forall_forall in IHitems.
    apply (IHitems _ Hin0). simpl in Hitem. simpl. by rewrite Hitem.
Qed.

Lemma clean_fixed v :
  (∀ x, visits v x → no_popped_key x) → _clean_schema v = v.
Proof.
  induction v as [| b | n | s | items | d IH]
    using for_value_and_items_ind; intros Hv; try done.
  rewrite clean_schema_dict.
  destruct (Hv d (visits_self d)) as [Hs Ha].
  rewrite (pop_none schema_key) by done.
  rewrite (pop_none additional_key) by done.
  f_equal. rewrite <- (map_id d) at 2. apply map_ext_in.
  intros [key value] Hin%list_elem_of_In. simpl. f_equal.
  rewrite Forall_forall in IH. destruct (IH _ Hin) as [IHv IHitems].
  simpl in *. destruct value as [| | | |items|d0]; try done.
  - simpl. f_equal. rewrite <- (map_id items) at 2. apply map_ext_in.
    intros item Hitem%list_elem_of_In.
    specialize (IHitems items eq_refl). rewrite Forall_forall in IHitems.
    destruct item as [| | | | |d1]; try done.
    apply (IHitems _ Hitem). intros x Hx. apply Hv.
    by eapply visits_item.
  - apply IHv. intros x Hx. apply Hv. by eapply visits_value.
Qed.

(** X1: after [_clean_schema] no dict the function visits has one of
    the two keys, and the values it changes nothing in are exactly
    those in which no visited dict has one. *)
Theorem clean_schema_removes_keys v :
  (∀ x, visits (_clean_schema v) x → no_popped_key x) ∧
  (_clean_schema v = v ↔ ∀ x, visits v x → no_popped_key x).
Proof.
  split; [intros x; apply clean_visits|]. split.
  - intros Heq x Hx. rewrite <- Heq in Hx. by eapply clean_visits.
  - apply clean_fixed.
Qed.

(** X2: cleaning a second time changes nothing. *)
Theorem clean_schema_idempotent v :
  _clean_schema (_clean_schema v) = _clean_schema v.
Proof. apply clean_fixed. intros x. apply clean_visits. Qed.

(** X3: of a dict the function keeps the items under every other key, in
    their order, each with its value cleaned; a value that is not a
    dict is returned as it is. *)
Theorem clean_schema_keeps_other_items v :
  match v with
  | JDict d =>
      ∃ d', _clean_schema v = JDict d' ∧
        fst <$> d' =
          filter (λ k, k ≠ schema_key ∧ k ≠ additional_key) (fst <$> d) ∧
        ∀ key value', (key, value') ∈ d' →
          ∃ value, (key, value) ∈ d ∧ value' = clean_value value
  | _ => _clean_schema v = v
  end.
Proof.
  destruct v as [| | | | |d]; try done.
  destruct (clean_keys d) as (d' & Heq & Hk).
  exists d'. split_and!; [done|done|].
  rewrite clean_schema_dict in Heq. injection Heq as <-.
  intros key value'. apply in_clean_entries.
Qed.

Section Loader.
Context {W : Type}.
Variable getcwd : W → pystr.
Variable path_join : pystr → pystr → pystr.
Variable getenv : pystr → W → option pystr.
Variable stdout_print : pystr → W → W.
Variable client_get_tools : pystr → W → outcome (list (McpTool W)) * W.
Implicit Types (s : @Agent W) (w : W).

Local Abbreviation get_mcp_tools :=
  (get_mcp_tools getenv stdout_print client_get_tools).
Local Abbreviation load_mcp_handles :=
  (load_mcp_handles getenv stdout_print client_get_tools).
Local Abbreviation initialize := (initialize (W:=W) getcwd path_join).

Lemma clean_tool_spec (tool : McpTool W) :
  mcp_handle (clean_tool tool) = mcp_handle tool ∧
  args_schema (clean_tool tool) = _clean_schema <$> args_schema tool.
Proof.
  unfold clean_tool. destruct tool as [h [schema|]]; simpl; [|done].
  destruct (json_truthy schema) eqn:E; simpl; [done|].
  split; [done|]. f_equal.
  destruct schema as [|[]|n| [|]| [|] | [|] ]; simplify_eq/=; try done.
Qed.

Lemma clean_tool_clean (tool : McpTool W) : clean_schema_of (clean_tool tool).
Proof.
  intros schema x Hs Hx.
  destruct (clean_tool_spec tool) as [_ Hc]. rewrite Hs in Hc.
  destruct (args_schema tool) as [schema0|]; simplify_eq/=.
  by eapply clean_visits.
Qed.

Lemma get_mcp_tools_cases w :
  match getenv (lit "GITHUB_TOKEN") w with
  | None | Some [] =>
      get_mcp_tools w
      = (Ok [], stdout_print (lit "Warning: GITHUB_TOKEN not found") w)
  | Some github_token =>
      match client_get_tools github_token w with
      | (Ok found, w') =>
          ∃ w'', get_mcp_tools w = (Ok (clean_tool <$> found), w'')
      | (Raise (Exception _ _), w') => ∃ w'', get_mcp_tools w = (Ok [], w'')
      | (Raise KeyboardInterrupt, w') =>
          get_mcp_tools w = (Raise KeyboardInterrupt, w')
      end
  end.
Proof.
  unfold get_mcp_tools.
  destruct (getenv _ w) as [[|c token]|]; [done| |done].
  destruct (client_get_tools _ w) as [[found|[cls msg|]] w']; by eexists.
Qed.

(** X4: the loader never raises an [Exception]: without a token (unset
    or empty) it returns no tool and does not start the server; when
    the client raises an [Exception] it returns no tool; only a
    [KeyboardInterrupt] of the client passes. When the client answers,
    the loader returns its tools, in its order, each with a clean
    schema. *)
Theorem get_mcp_tools_outcome w :
  match getenv (lit "GITHUB_TOKEN") w with
  | None | Some [] =>
      get_mcp_tools w
      = (Ok [], stdout_print (lit "Warning: GITHUB_TOKEN not found") w)
  | Some github_token =>
      match (client_get_tools github_token w).1 with
      | Ok found =>
          ∃ loaded, (get_mcp_tools w).1 = Ok loaded ∧
            mcp_handle <$> loaded = mcp_handle <$> found ∧
            args_schema <$> loaded
              = (λ tool, _clean_schema <$> args_schema tool) <$> found ∧
            Forall clean_schema_of loaded
      | Raise (Exception _ _) => (get_mcp_tools w).1 = Ok []
      | Raise KeyboardInterrupt => (get_mcp_tools w).1 = Raise KeyboardInterrupt
      end
  end.
Proof.
  pose proof (get_mcp_tools_cases w) as H.
  destruct (getenv _ w) as [[|c token]|]; [done| |done].
  destruct (client_get_tools _ w) as [[found|[cls msg|]] w']; simpl.
  - destruct H as [w'' ->]. eexists. split; [done|]. split_and!.
    + rewrite <- list_fmap_compose. apply list_fmap_ext.
      intros i tool _. apply clean_tool_spec.
    + rewrite <- list_fmap_compose. apply list_fmap_ext.
      intros i tool _. apply clean_tool_spec.
    + apply Forall_fmap, Forall_forall. intros tool _.
      apply clean_tool_clean.
  - by destruct H as [w'' ->].
  - by rewrite H.
Qed.

Lemma load_mcp_handles_cases w :
  (∃ found w', load_mcp_handles w = (Ok found, w')) ∨
  (∃ w', load_mcp_handles w = (Raise KeyboardInterrupt, w')).
Proof.
  unfold load_mcp_handles.
  pose proof (get_mcp_tools_cases w) as H.
  destruct (getenv _ w) as [[|c token]|].
  - rewrite H. left. by eexists _, _.
  - destruct (client_get_tools _ w) as [[found|[cls msg|]] w'].
    + destruct H as [w'' ->]. left. by eexists _, _.
    + destruct H as [w'' ->]. left. by eexists _, _.
    + rewrite H. right. by eexists.
  - rewrite H. left. by eexists _, _.
Qed.

Lemma mcp_warning_first (e : pystr) (text : pystr) :
  mcp_warning e = Print text → text !! 1 = Some 121%N.
Proof. intros [= <-]. done. Qed.

(** X5: with this loader, [initialize] never prints its own warning
    that the MCP tools could not be loaded: the loader has turned
    every [Exception] into an empty list before [initialize] can
    catch one. *)
Theorem initialize_never_warns saved s :
  ∃ printed,
    console (initialize load_mcp_handles saved s).2 = console s ++ printed ∧
    ∀ e, mcp_warning e ∉ printed.
Proof.
  unfold initialize, _display_quick_start. unfold_M.
  cbn [world set_checkpointer set_console].
  destruct (load_mcp_handles_cases (world s)) as [(found & w' & ->)|(w' & ->)].
  - destruct found as [|t found]; simpl; rewrite <- !app_assoc;
      (eexists; split; [reflexivity|]); intros e; simpl;
      rewrite !elem_of_cons, elem_of_nil; intros H;
      repeat match goal with H : _ ∨ _ |- _ => destruct H as [H|H] end;
      try done; by apply mcp_warning_first in H.
  - simpl. eexists. split; [reflexivity|]. intros e.
    rewrite list_elem_of_singleton. intros H.
    by apply mcp_warning_first in H.
Qed.

End Loader.

Section Registry.
Context {W : Type}.
Variable getcwd : W → pystr.
Variable path_join : pystr → pystr → pystr.
Implicit Types (s : @Agent W) (t : @Tool W) (ts : list (@Tool W)).

Local Abbreviation initialize := (initialize (W:=W) getcwd path_join).
Local Opaque lit.

Lemma find_tool_None ts name :
  find_tool ts name = None ↔ ∀ t, t ∈ ts → tool_name t ≠ name.
Proof.
  unfold find_tool. induction ts as [|t ts IH]; simpl.
  - split; [|done]. intros _ t Ht. by apply elem_of_nil in Ht.
  - case_bool_decide as Hn.
    + split; [done|]. intros H. destruct (H t); [left|done].
    + rewrite IH. split.
      * intros H t' [->|Ht']%elem_of_cons; [done|by apply H].
      * intros H t' Ht'. apply H. by right.
Qed.

Lemma find_tool_Some ts name t :
  find_tool ts name = Some t ↔
  ∃ before after,
    ts = before ++ t :: after ∧ tool_name t = name ∧
    ∀ t', t' ∈ before → tool_name t' ≠ name.
Proof.
  unfold find_tool. revert t. induction ts as [|t0 ts IH]; intros t; simpl.
  - split; [done|]. intros (before & after & Heq & _). by destruct before.
  - case_bool_decide as Hn.
    + split.
      * intros [= <-]. exists [], ts. split_and!; [done|done|].
        intros t' Ht'. by apply elem_of_nil in Ht'.
      * intros (before & after & Heq & Hname & Hbefore).
        destruct before as [|b before]; simplify_eq/=; [done|].
        destruct (Hbefore b); [left|done].
    + rewrite IH. split.
      * intros (before & after & -> & Hname & Hbefore).
        exists (t0 :: before), after. split_and!; [done|done|].
        intros t' [->|Ht']%elem_of_cons; [done|by apply Hbefore].
      * intros (before & after & Heq & Hname & Hbefore).
        destruct before as [|b before]; simplify_eq/=.
        exists before, after. split_and!; [done|done|].
        intros t' Ht'. apply Hbefore. by right.
Qed.

(** X6: the tool found for a name is the first tool of the registry with
    that name, and none is found exactly when no tool has it; so a tool
    registered earlier hides a later one of the same name. *)
Theorem find_tool_first ts name :
  match find_tool ts name with
  | Some t =>
      ∃ before after,
        ts = before ++ t :: after ∧ tool_name t = name ∧
        ∀ t', t' ∈ before → tool_name t' ≠ name
  | None => ∀ t, t ∈ ts → tool_name t ≠ name
  end ∧
  ∀ later,
    find_tool (ts ++ later) name =
    match find_tool ts name with
    | Some t => Some t
    | None => find_tool later name
    end.
Proof.
  split.
  - destruct (find_tool ts name) as [t|] eqn:E.
    + by apply find_tool_Some.
    + by apply find_tool_None.
  - intros later. unfold find_tool.
    induction ts as [|t ts IH]; simpl; [done|]. by case_bool_decide.
Qed.

Lemma tool_in_elem t ts : t ∈ ts → tool_in t ts = true.
Proof.
  intros Ht. unfold tool_in. apply existsb_exists.
  exists t. split; [by apply list_elem_of_In|]. apply Nat.eqb_refl.
Qed.

(** X7: [initialize] never fails because the MCP tools cannot be
    loaded. When the loader returns tools, they become
    [self.mcp_tools], are added after the tools already registered and
    are called through [ainvoke]; when it raises an [Exception], a
    warning is printed and the registry stays as it was. In both cases
    the model is bound to the whole registry and the conversations
    read from the database are in place. *)
Theorem initialize_survives_mcp_failure get_mcp_tools saved s :
  match get_mcp_tools (world s) with
  | (Ok found, w) =>
      ∃ s', initialize get_mcp_tools saved s = (Ok (), s') ∧
        mcp_tools s' = found ∧
        tools s' = tools s ++ found ∧
        bound_tools s' = tools s' ∧
        checkpointer s' = saved ∧ world s' = w ∧
        ∀ t args, t ∈ found → invoke_tool s' t args = ainvoke t args
  | (Raise (Exception cls msg), w) =>
      ∃ s', initialize get_mcp_tools saved s = (Ok (), s') ∧
        mcp_tools s' = mcp_tools s ∧
        tools s' = tools s ∧
        bound_tools s' = tools s ∧
        checkpointer s' = saved ∧ world s' = w ∧
        Print (lit "[yellow]Warning: Could not load MCP tools: " ++ msg
                 ++ lit "[/yellow]") ∈ console s'
  | (Raise KeyboardInterrupt, w) =>
      (initialize get_mcp_tools saved s).1 = Raise KeyboardInterrupt
  end.
Proof.
  unfold initialize, _display_quick_start. unfold_M. simpl.
  destruct (get_mcp_tools (world s)) as [[found|[cls msg|]] w]; simpl.
  - destruct found as [|t found]; simpl.
    + eexists. split_and!; try done; [by rewrite app_nil_r|].
      intros t args Ht. by apply elem_of_nil in Ht.
    + eexists. split_and!; try done.
      intros t' args Ht'. unfold invoke_tool.
      cbn [mcp_tools set_console set_last_options set_bound_tools set_tools
           set_mcp_tools set_world set_checkpointer].
      by rewrite (tool_in_elem _ _ Ht').
  - eexists. split_and!; try done.
    simpl. rewrite !elem_of_app, !list_elem_of_singleton. tauto.
  - done.
Qed.

Local Transparent lit.

End Registry.

Section ModelTurn.
Context {W : Type}.
Variable lower : pystr → pystr.
Implicit Types (s : @Agent W) (state : list Message).

Local Abbreviation model_response := (model_response (W:=W) lower).

Lemma set_last_snoc (l : list Message) m x : set_last (l ++ [m]) x = l ++ [x].
Proof.
  unfold set_last. rewrite length_app. simpl.
  replace (pred (length l + 1)) with (length l + 0) by lia.
  by rewrite insert_app_r.
Qed.

Lemma with_system_message_snoc before m :
  with_system_message (before ++ [m])
  = Ok (system_message :: without_leading_system before ++ [m]).
Proof.
  unfold with_system_message. destruct before as [|h before]; [done|].
  rewrite bool_decide_eq_false_2.
  - by destruct h.
  - simpl. rewrite length_app. simpl. lia.
Qed.

Lemma prompt_messages_snoc before m text :
  message_content m = Text text →
  prompt_messages lower (before ++ [m])
  = Ok (system_message :: without_leading_system before
          ++ [steered lower m text]).
Proof.
  intros Hm. unfold prompt_messages. rewrite with_system_message_snoc.
  unfold force_tool_use.
  rewrite app_comm_cons, last_snoc, Hm. unfold steered.
  destruct (existsb _ _); [|done]. by rewrite set_last_snoc.
Qed.


(** X9: [model_response] raises before it calls the model in two cases:
    [IndexError] on an empty conversation, and [AttributeError] when
    the content of the last message is a list of blocks. In every
    other case the model is called. *)
Theorem model_response_fails_before_model state s :
  match last state with
  | None => model_response state s = (Raise IndexError, s)
  | Some m =>
      match message_content m with
      | Blocks _ =>
          model_response state s
          = (Raise (AttributeError "'list' object has no attribute 'lower'"),
             s)
      | Text text =>
          ∃ messages, prompt_messages lower state = Ok messages
      end
  end.
Proof.
  destruct state as [|m state _] using rev_ind; [done|].
  rewrite last_snoc.
  destruct (message_content m) as [text|blocks] eqn:Hm.
  - eexists. by apply prompt_messages_snoc.
  - unfold model_response, prompt_messages.
    rewrite with_system_message_snoc. unfold force_tool_use.
    rewrite app_comm_cons, last_snoc, Hm. done.
Qed.

(** X10: a model turn that succeeds returns the response alone, changes
    the world by the one call of the model, and replaces the option
    map by the map of the response when the response has content; a
    response without content leaves the option map as it was. *)
Theorem model_response_effects state s messages c tcs w :
  prompt_messages lower state = Ok messages →
  llm_with_tools s messages (world s) = (Ok (c, tcs), w) →
  ∃ s',
    model_response state s = (Ok [AIMessage c tcs], s') ∧
    world s' = w ∧
    checkpointer s' = checkpointer s ∧
    same_setup s s' ∧
    last_options s' =
      (if content_truthy c then (format_text (content_text c)).2
       else last_options s) ∧
    console s' =
      console s ++
      (if content_truthy c
       then [Panel (format_text (content_text c)).1
                   (lit "[bold cyan]Assistant[/bold cyan]")]
       else []).
Proof.
  intros Hp Hl. unfold model_response. rewrite Hp. unfold_M.
  rewrite Hl. cbn [fst snd]. unfold _format_with_numbers.
  destruct (content_truthy c).
  - destruct (format_text (content_text c)) as [result options].
    unfold_M. eexists. split; [reflexivity|]. by repeat split.
  - eexists. split; [reflexivity|]. simpl. rewrite app_nil_r.
    by repeat split.
Qed.

End ModelTurn.


Lemma model_response_effects_witness :
  ∃ s', model_response Sample.ascii_lower [HumanMessage (lit "hello")]
          (set_last_options quick_start_options
             (Sample.agent_with Sample.polite_llm))
        = (Ok [AIMessage (Text []) [Sample.call_of "echo" "call_1"]], s') ∧
        last_options s' = quick_start_options.
Proof.
  destruct (model_response_effects Sample.ascii_lower
              [HumanMessage (lit "hello")]
              (set_last_options quick_start_options
                 (Sample.agent_with Sample.polite_llm))
              [system_message; HumanMessage (lit "hello")]
              (Text []) [Sample.call_of "echo" "call_1"] 1)
    as (s' & Hrun & _ & _ & _ & Hopt & _).
  - by vm_compute.
  - by vm_compute.
  - exists s'. split; [exact Hrun | exact Hopt].
Defined.

(** ** [split] and [join] *)

Lemma split_app_sep sep a b :
  split sep (a ++ sep :: b) = split sep a ++ split sep b.
Proof.
  induction a as [|c a IH]; simpl.
  - by rewrite N.eqb_refl.
  - destruct (c =? sep)%N; [by rewrite IH|].
    rewrite IH. destruct (split sep a) as [|h t] eqn:E; [|done].
    by destruct (split_nonempty sep a).
Qed.

Lemma split_id sep s : sep ∉ s → split sep s = [s].
Proof.
  induction s as [|c s IH]; [done|].
  intros [Hc Hs]%not_elem_of_cons. simpl.
  destruct (N.eqb_spec c sep) as [->|_]; [done|]. by rewrite IH.
Qed.

Lemma split_join sep lines :
  lines ≠ [] → Forall (λ l, sep ∉ l) lines →
  split sep (join [sep] lines) = lines.
Proof.
  induction lines as [|p [|q rest] IH]; [done|..]; intros _ HF.
  - simpl. apply split_id. by apply Forall_cons in HF as [? _].
  - apply Forall_cons in HF as [Hp HF].
    change (join [sep] (p :: q :: rest))
      with (p ++ sep :: join [sep] (q :: rest)).
    rewrite split_app_sep, split_id, IH by done. done.
Qed.

Lemma join_split sep s : join [sep] (split sep s) = s.
Proof.
  induction s as [|c s IH]; [done|]. simpl.
  pose proof (split_nonempty sep s) as Hne.
  destruct (N.eqb_spec c sep) as [->|_].
  - destruct (split sep s) as [|h t]; [done|]. by rewrite <- IH.
  - destruct (split sep s) as [|h [|h' t]]; [done|..]; by rewrite <- IH.
Qed.

(** ** [str] of a number *)

Lemma lit_cons a s : lit (String a s) = N_of_ascii a :: lit s.
Proof. done. Qed.

Lemma pretty_N_char_digit x : ascii_digit (N_of_ascii (pretty_N_char x)).
Proof.
  unfold pretty_N_char, ascii_digit.
  repeat case_match; vm_compute; split; discriminate.
Qed.

Lemma pretty_N_go_digits x s :
  Forall ascii_digit (lit s) →
  Forall ascii_digit (lit (pretty_N_go x s)) ∧
  (lit s ≠ [] → lit (pretty_N_go x s) ≠ []).
Proof.
  revert s. induction (N.lt_wf_0 x) as [x _ IH]. intros s Hs.
  assert (x = 0 ∨ 0 < x)%N as [->|Hx] by lia.
  - by rewrite pretty_N_go_0.
  - rewrite pretty_N_go_step by done.
    destruct (IH (x `div` 10)%N) with (s := String (pretty_N_char (x `mod` 10)) s)
      as [H1 H2].
    + by apply N.div_lt.
    + rewrite lit_cons. apply Forall_cons. split; [|done].
      apply pretty_N_char_digit.
    + split; [done|]. intros _. by apply H2.
Qed.

Lemma str_of_nat_digits n :
  str_of_nat n ≠ [] ∧ Forall ascii_digit (str_of_nat n).
Proof.
  unfold str_of_nat, pretty, pretty_nat, pretty, pretty_N.
  case_decide as Hn.
  - split; [done|]. repeat constructor; by vm_compute.
  - assert (0 < N.of_nat n)%N as Hpos by lia.
    rewrite pretty_N_go_step by done.
    destruct (pretty_N_go_digits (N.of_nat n `div` 10)%N
                (String (pretty_N_char (N.of_nat n `mod` 10)) EmptyString))
      as [H1 H2].
    + rewrite lit_cons. apply Forall_cons. split; [|by constructor].
      apply pretty_N_char_digit.
    + split; [by apply H2|done].
Qed.

Lemma digit_not_space c : ascii_digit c → isspace c = false.
Proof.
  unfold ascii_digit, isspace. intros [H1 H2].
  repeat match goal with
  | |- context [(?a <=? ?b)%N] => destruct (N.leb_spec a b); try lia
  | |- context [(?a =? ?b)%N] => destruct (N.eqb_spec a b); try lia
  end; done.
Qed.

Lemma lstrip_id s :
  Forall (λ c, isspace c = false) s → lstrip s = s.
Proof. destruct s as [|c s]; [done|]. intros [Hc _]%Forall_cons. simpl. by rewrite Hc. Qed.

Lemma strip_id s :
  Forall (λ c, isspace c = false) s → strip s = s.
Proof.
  intros H. unfold strip, rstrip. rewrite (lstrip_id s) by done.
  rewrite lstrip_id by by apply Forall_reverse. apply reverse_involutive.
Qed.

Lemma strip_str_of_nat n : strip (str_of_nat n) = str_of_nat n.
Proof.
  apply strip_id. destruct (str_of_nat_digits n) as [_ H].
  eapply Forall_impl; [exact H|]. apply digit_not_space.
Qed.

Lemma str_of_nat_no_newline n : NL ∉ str_of_nat n.
Proof.
  destruct (str_of_nat_digits n) as [_ H].
  intros Hin. rewrite Forall_forall in H. apply H in Hin.
  unfold ascii_digit, NL in Hin. lia.
Qed.

(** ** Lines that are no bullet lines *)

Lemma space_prefix_unique (l1 l2 : pystr) x y r1 r2 :
  Forall (λ c, isspace c = true) l1 → Forall (λ c, isspace c = true) l2 →
  isspace x = false → isspace y = false →
  l1 ++ x :: r1 = l2 ++ y :: r2 → l1 = l2 ∧ x = y ∧ r1 = r2.
Proof.
  revert l2. induction l1 as [|a l1 IH]; intros [|b l2] H1 H2 Hx Hy Heq;
    simplify_eq/=.
  - done.
  - apply Forall_cons in H2 as [? _]. congruence.
  - apply Forall_cons in H1 as [? _]. congruence.
  - apply Forall_cons in H1 as [_ H1]. apply Forall_cons in H2 as [_ H2].
    destruct (IH l2 H1 H2 Hx Hy) as (-> & -> & ->); done.
Qed.

Lemma bullet_not_space b : bullet b = true → isspace b = false.
Proof.
  unfold bullet. intros H.
  repeat (apply orb_prop in H as [H|H]); apply N.eqb_eq in H as ->; done.
Qed.

(** A line whose first character after the blanks is an asterisk that
    no blank follows is no bullet line. *)
Lemma starred_no_shape indent c rest i content :
  Forall (λ c, isspace c = true) indent → isspace c = false →
  ¬ bullet_shape (indent ++ 42%N :: c :: rest) i content.
Proof.
  intros Hind Hc (b & ws & Heq & Hi & Hb & Hws & Hsp & _).
  apply space_prefix_unique in Heq as (_ & _ & Heq);
    [|done|done|done|by apply bullet_not_space].
  destruct ws as [|w ws]; [done|]. simplify_eq/=.
  apply Forall_cons in Hsp as [? _]. congruence.
Qed.

Lemma no_shape_no_match line :
  NL ∉ line → (∀ i c, ¬ bullet_shape line i c) → bullet_match line = None.
Proof.
  intros Hnl H. destruct (bullet_match line) as [[i c]|] eqn:E; [|done].
  apply bullet_match_Some in E as [E _]; [|done]. by destruct (H i c).
Qed.

Lemma numbered_shape indent n content :
  numbered indent n content
  = indent ++ 42%N :: 42%N :: (str_of_nat n ++ lit ".** " ++ content).
Proof. done. Qed.

Lemma tip_shape n :
  tip n = NL :: NL :: [] ++ 42%N :: 84%N ::
            (lit "ip: Type a number (1-" ++ str_of_nat n
               ++ lit ") to select an option*").
Proof. done. Qed.

Lemma lit_no_newline (s : string) :
  forallb (λ c, negb (c =? NL)%N) (lit s) = true → NL ∉ lit s.
Proof.
  intros H Hin. rewrite forallb_forall in H.
  apply list_elem_of_In, H in Hin. by rewrite N.eqb_refl in Hin.
Qed.

Lemma render_no_newline before line :
  NL ∉ line → NL ∉ render before line.
Proof.
  intros Hnl. unfold render.
  destruct (bullet_match line) as [[indent content]|] eqn:E; [|done].
  apply bullet_match_Some in E as [(b & ws & -> & _) _]; [|done].
  unfold numbered. rewrite !elem_of_app.
  rewrite !elem_of_app, elem_of_cons, elem_of_app in Hnl.
  intros [?|[?|[?|[?|?]]]]; try tauto.
  - by apply (lit_no_newline "**").
  - by eapply str_of_nat_no_newline.
  - by apply (lit_no_newline ".** ").
Qed.

Lemma render_no_match before line :
  NL ∉ line → bullet_match (render before line) = None.
Proof.
  intros Hnl. pose proof (render_no_newline before line Hnl) as Hr.
  unfold render in *.
  destruct (bullet_match line) as [[indent content]|] eqn:E; [|done].
  apply bullet_match_Some in E as [(b & ws & -> & Hind & _) _]; [|done].
  apply no_shape_no_match; [done|]. intros i c.
  rewrite numbered_shape. by apply starred_no_shape.
Qed.

Lemma tip_line_no_match n :
  let line := 42%N :: 84%N :: (lit "ip: Type a number (1-" ++ str_of_nat n
                                 ++ lit ") to select an option*") in
  (NL ∉ line) ∧ bullet_match line = None.
Proof.
  intros line.
  assert (NL ∉ line) as Hnl.
  { unfold line. rewrite !elem_of_cons, !elem_of_app.
    intros [?|[?|[?|[?|?]]]]; try done.
    - by apply (lit_no_newline "ip: Type a number (1-").
    - by eapply str_of_nat_no_newline.
    - by apply (lit_no_newline ") to select an option*"). }
  split; [done|]. apply no_shape_no_match; [done|]. intros i c.
  by apply (starred_no_shape []).
Qed.

Lemma found_nil lines :
  found lines = [] ↔ Forall (λ line, bullet_match line = None) lines.
Proof.
  unfold found. induction lines as [|l lines IH]; simpl.
  - by split.
  - rewrite Forall_cons. destruct (bullet_match l); simpl.
    + split; [done|]. by intros [? _].
    + rewrite IH. tauto.
Qed.

Lemma found_cons l lines :
  found (l :: lines)
  = match bullet_match l with Some ic => [ic] | None => [] end ++ found lines.
Proof. unfold found. simpl. by destruct (bullet_match l). Qed.

Lemma found_app a b : found (a ++ b) = found a ++ found b.
Proof. apply omap_app. Qed.

(** ** The formatter on texts without bullet lines *)

Lemma fold_plain lines :
  found lines = [] →
  foldl fmt_line (FmtState ∅ 1 []) lines = FmtState ∅ 1 lines.
Proof.
  intros Hf. apply found_nil in Hf.
  induction lines as [|x lines IH] using rev_ind; [done|].
  apply Forall_app in Hf as [Hl [Hx _]%Forall_cons].
  rewrite foldl_app, IH by done. simpl. unfold fmt_line. by rewrite Hx.
Qed.

Lemma format_text_plain text :
  found (split NL text) = [] → format_text text = (text, ∅).
Proof.
  intros Hf. unfold format_text. rewrite fold_plain by done. simpl.
  by rewrite join_split.
Qed.

Lemma formatted_plain lines :
  Forall (λ l, NL ∉ l) lines →
  let st := foldl fmt_line (FmtState ∅ 1 []) lines in
  Forall (λ l, NL ∉ l) (formatted_lines st) ∧
  found (formatted_lines st) = [] ∧
  (lines ≠ [] → formatted_lines st ≠ []).
Proof.
  intros Hnl st.
  destruct (fmt_fold lines) as (_ & _ & _ & Hlen & Hfmt). fold st in Hlen, Hfmt.
  assert (∀ l, l ∈ formatted_lines st →
               (NL ∉ l) ∧ bullet_match l = None) as Hall.
  { intros l [i Hi]%list_elem_of_lookup.
    destruct (lines !! i) as [line|] eqn:Hline.
    - rewrite (Hfmt _ _ Hline) in Hi. simplify_eq.
      assert (NL ∉ line).
      { rewrite Forall_forall in Hnl. apply Hnl.
        by eapply list_elem_of_lookup_2. }
      split; [by apply render_no_newline | by apply render_no_match].
    - apply lookup_ge_None in Hline. apply lookup_lt_Some in Hi. lia. }
  split_and!.
  - apply Forall_forall. intros l Hl. by apply Hall.
  - apply found_nil, Forall_forall. intros l Hl. by apply Hall.
  - intros Hne Hnil. rewrite Hnil in Hlen. by destruct lines.
Qed.

Section Formatter.
Context {W : Type}.
Variable unicode_isdigit : N → bool.
Implicit Types (s : @Agent W).

Local Abbreviation select_option := (select_option (W:=W) unicode_isdigit).

(** X11: a text none of whose lines is a bullet line is returned as it
    is, without the tip, and the option map becomes empty. *)
Theorem format_text_without_bullets text :
  found (split NL text) = [] → format_text text = (text, ∅).
Proof. apply format_text_plain. Qed.

(** X12: the text [_format_with_numbers] returns has no bullet line
    left: formatting it again returns it as it is and empties the
    option map. *)
Theorem format_text_twice text :
  format_text (format_text text).1 = ((format_text text).1, ∅).
Proof.
  apply format_text_plain. unfold format_text.
  set (st := foldl fmt_line (FmtState ∅ 1 []) (split NL text)).
  destruct (formatted_plain (split NL text)) as (Hnl & Hfound & Hne).
  { apply Forall_forall. intros l Hl. by eapply split_no_sep. }
  fold st in Hnl, Hfound, Hne. cbn [fst].
  specialize (Hne (split_nonempty _ _)).
  case_bool_decide.
  - by rewrite split_join.
  - rewrite tip_shape.
    change (join [NL] (formatted_lines st) ++ NL :: NL :: [] ++ ?l)
      with (join [NL] (formatted_lines st) ++ NL :: ([] ++ NL :: l)).
    destruct (tip_line_no_match (size (fmt_options st))) as [Htn Htm].
    rewrite !split_app_sep, split_join, !found_app, Hfound by done.
    rewrite (split_id NL (_ :: _)) by exact Htn.
    change (split NL []) with [[] : pystr].
    by rewrite !found_cons, Htm.
Qed.


End Formatter.

Lemma format_text_without_bullets_witness :
  format_text (lit "no list here") = (lit "no list here", ∅).
Proof. apply format_text_without_bullets. by vm_compute. Defined.


Section Checkpoints.
Context {W : Type}.
Variable lower : pystr → pystr.
Variable DEFAULT_RECURSION_LIMIT : nat.
Implicit Types (s : @Agent W) (state : list Message).

Local Abbreviation workflow := (workflow (W:=W) lower).
Local Abbreviation model_response := (model_response (W:=W) lower).

Lemma tool_use_frame state s :
  let r := tool_use state s in
  checkpointer r.2 = checkpointer s ∧
  match r.1 with
  | Ok update => Forall from_node update
  | Raise _ => True
  end.
Proof.
  unfold tool_use. destruct (last state) as [[| |c tcs|]|]; try done.
  pose proof (tool_loop_spec tcs [] s) as (_ & _ & Hc & Hr).
  split; [done|]. destruct (tool_loop tcs [] s).1 as [msgs|]; [|done].
  destruct Hr as (new & -> & HF). simpl.
  clear -HF. induction HF as [|tc m tcs ms [text ->] _ IH]; by constructor.
Qed.

Lemma run_graph_unknown thread n current state s :
  current ≠ END → current ≠ lit "model_response" → current ≠ lit "tool_use" →
  run_graph workflow thread (S n) current state s
  = (Raise (unknown_node current), s).
Proof.
  intros H1 H2 H3. simpl. rewrite (bool_decide_eq_false_2 _ H1).
  unfold assoc. simpl.
  rewrite bool_decide_eq_false_2 by (intros Heq; apply H2; symmetry; exact Heq).
  rewrite bool_decide_eq_false_2 by (intros Heq; apply H3; symmetry; exact Heq).
  done.
Qed.

Lemma run_graph_checkpoint thread limit current state s :
  checkpointer s !! thread = Some state →
  let r := run_graph workflow thread limit current state s in
  ∃ more,
    checkpointer r.2 !! thread = Some (state ++ more) ∧
    Forall from_node more ∧
    (∀ t, t ≠ thread → checkpointer r.2 !! t = checkpointer s !! t) ∧
    (∀ final, r.1 = Ok final → final = state ++ more).
Proof.
  revert current state s.
  assert (∀ state s (e : exn),
            checkpointer s !! thread = Some state →
            ∃ more,
              checkpointer s !! thread = Some (state ++ more) ∧
              Forall from_node more ∧
              (∀ t, t ≠ thread → checkpointer s !! t = checkpointer s !! t) ∧
              (∀ final, @Raise (list Message) e = Ok final →
                        final = state ++ more)) as Hraise.
  { intros state s e Hcp. exists []. rewrite app_nil_r. by split_and!. }
  assert (∀ limit state s,
            checkpointer s !! thread = Some state →
            let r := run_graph workflow thread limit END state s in
            ∃ more,
              checkpointer r.2 !! thread = Some (state ++ more) ∧
              Forall from_node more ∧
              (∀ t, t ≠ thread → checkpointer r.2 !! t = checkpointer s !! t) ∧
              (∀ final, r.1 = Ok final → final = state ++ more)) as Hend.
  { intros n state s Hcp. rewrite run_graph_END. simpl.
    exists []. rewrite app_nil_r. split_and!; try done. by intros ? [= <-]. }
  induction limit as [|n IH]; intros current state s Hcp.
  - destruct (decide (current = END)) as [->|Hne]; [by apply Hend|].
    simpl. rewrite (bool_decide_eq_false_2 _ Hne). by apply Hraise.
  - destruct (decide (current = END)) as [->|Hend']; [by apply Hend|].
    destruct (decide (current = lit "model_response")) as [->|Hmr].
    + rewrite run_graph_model.
      pose proof (model_response_cases lower state s) as (_ & Hc & _).
      destruct (model_response state s) as [[update|e] s1] eqn:Hm.
      2:{ rewrite (bind_Raise _ _ _ _ _ Hm). simpl in *. rewrite Hc.
          by apply Hraise. }
      rewrite (bind_Ok _ _ _ _ _ Hm).
      apply model_response_update in Hm as (c & tcs & ->).
      rewrite put_checkpoint_then. unfold add_messages.
      rewrite next_after_model, of_outcome_Ok. simpl in Hc.
      match goal with |- context [run_graph _ _ _ ?next ?st ?s2] =>
        destruct (IH next st s2) as (more & Hcp' & Hmore & Hother & Hfinal)
      end.
      { simpl. by rewrite lookup_insert_eq. }
      exists (AIMessage c tcs :: more).
      rewrite <- (assoc_L (++)) in Hcp', Hfinal.
      split_and!; [done|by constructor| |done].
      intros t Ht. rewrite (Hother t Ht). simpl.
      rewrite lookup_insert_ne by done. by rewrite Hc.
    + destruct (decide (current = lit "tool_use")) as [->|Htu].
      * rewrite run_graph_tool.
        pose proof (tool_use_frame state s) as (Hc & Hupd).
        destruct (tool_use state s) as [[update|e] s1] eqn:Ht.
        2:{ rewrite (bind_Raise _ _ _ _ _ Ht). simpl in *. rewrite Hc.
            by apply Hraise. }
        rewrite (bind_Ok _ _ _ _ _ Ht).
        rewrite put_checkpoint_then, next_after_tool, of_outcome_Ok.
        unfold add_messages. simpl in Hc, Hupd.
        match goal with |- context [run_graph _ _ _ ?next ?st ?s2] =>
          destruct (IH next st s2) as (more & Hcp' & Hmore & Hother & Hfinal)
        end.
        { simpl. by rewrite lookup_insert_eq. }
        exists (update ++ more).
        rewrite <- (assoc_L (++)) in Hcp', Hfinal.
        split_and!; [done|by apply Forall_app| |done].
        intros t Ht'. rewrite (Hother t Ht'). simpl.
        rewrite lookup_insert_ne by done. by rewrite Hc.
      * rewrite run_graph_unknown by done. by apply Hraise.
Qed.

(** X14: a run only appends to the saved conversation of its thread, and
    only responses of the model and results of tools: whether the run
    ends or raises, the conversation saved afterwards is the one saved
    before, followed by the input and by the messages of the nodes that
    ran; it is the state the run returns when it ends; and the
    conversations of other threads are as before. *)
Theorem run_appends_to_checkpoint input config s :
  let thread := configurable_thread_id config in
  let saved := default [] (checkpointer s !! thread) in
  let r := agent_ainvoke DEFAULT_RECURSION_LIMIT workflow input config s in
  ∃ more,
    checkpointer r.2 !! thread = Some (saved ++ input ++ more) ∧
    Forall from_node more ∧
    (∀ t, t ≠ thread → checkpointer r.2 !! t = checkpointer s !! t) ∧
    (∀ final, r.1 = Ok final → final = saved ++ input ++ more).
Proof.
  intros thread saved. rewrite agent_ainvoke_unfold. cbv zeta.
  fold thread. fold saved. unfold add_messages.
  match goal with |- context [run_graph _ _ ?l _ ?st ?s2] =>
    destruct (run_graph_checkpoint thread l (lit "model_response") st s2)
      as (more & Hcp & Hmore & Hother & Hfinal)
  end.
  { simpl. by rewrite lookup_insert_eq. }
  exists more. rewrite <- (assoc_L (++)) in Hcp, Hfinal.
  split_and!; [done|done| |done].
  intros t Ht. rewrite (Hother t Ht). simpl. by rewrite lookup_insert_ne.
Qed.

End Checkpoints.

Section Session.
Context {W : Type}.
Variable lower : pystr → pystr.
Variable unicode_isdigit : N → bool.
Variable getcwd : W → pystr.
Variable path_join : pystr → pystr → pystr.
Variable DEFAULT_RECURSION_LIMIT : nat.
Variable push_folder : @Tool W.
Implicit Types (s : @Agent W) (user_input : pystr).

Local Abbreviation run_body :=
  (run_body lower unicode_isdigit getcwd path_join DEFAULT_RECURSION_LIMIT
     push_folder).
Local Abbreviation run_iteration :=
  (run_iteration lower unicode_isdigit getcwd path_join
     DEFAULT_RECURSION_LIMIT push_folder).
Local Abbreviation run :=
  (run lower unicode_isdigit getcwd path_join DEFAULT_RECURSION_LIMIT
     push_folder).

(** X15: a turn the loop handles by itself calls neither the model nor a
    tool and leaves the saved conversations and the option map as they
    are; it ends the loop on the end of input, an interrupt and the
    exit commands, and goes on otherwise. *)
Theorem command_turn_changes_nothing p s :
  is_command lower p →
  let r := run_iteration p s in
  r.1 = (if ends_loop lower p then Break else Continue) ∧
  world r.2 = world s ∧
  checkpointer r.2 = checkpointer s ∧
  last_options r.2 = last_options s ∧
  same_setup s r.2.
Proof.
  intros Hp. unfold run_iteration, run_body.
  destruct p as [user_input| |]; [|by repeat split..].
  simpl in *.
  destruct (bool_decide (user_input = []) || bool_decide (strip user_input = []))
    eqn:Hblank; [by repeat split|].
  apply orb_false_elim in Hblank as [H1%bool_decide_eq_false H2%bool_decide_eq_false].
  simpl.
  destruct (in_list _ _) eqn:Hexit; [by repeat split|].
  destruct (eqb (lower user_input) (lit "help")) eqn:Hhelp; [by repeat split|].
  destruct (eqb (lower user_input) (lit "tools")) eqn:Htools; [by repeat split|].
  by destruct Hp as [?|[?|[?|[?|?]]]].
Qed.

End Session.

Lemma command_turn_changes_nothing_witness :
  (run_iteration Sample.ascii_lower Sample.ascii_isdigit Sample.cwd
     Sample.posix_join 25 Sample.push (Line (lit "Quit"))
     (Sample.agent_with Sample.failing_llm)).1 = Break ∧
  world (run_iteration Sample.ascii_lower Sample.ascii_isdigit Sample.cwd
           Sample.posix_join 25 Sample.push (Line (lit "Quit"))
           (Sample.agent_with Sample.failing_llm)).2 = 0.
Proof.
  assert (is_command Sample.ascii_lower (Line (lit "Quit"))) as Hc.
  { right. right. left. by vm_compute. }
  destruct (command_turn_changes_nothing Sample.ascii_lower
              Sample.ascii_isdigit Sample.cwd Sample.posix_join 25
              Sample.push (Line (lit "Quit"))
              (Sample.agent_with Sample.failing_llm) Hc) as (H1 & H2 & _).
  split; [exact H1 | exact H2].
Defined.

Section ToolsDisplay.
Context {W : Type}.
Variable lower : pystr → pystr.
Implicit Types (s : @Agent W) (t : @Tool W).

Local Abbreviation _display_tools := (_display_tools (W:=W) lower).

Lemma filter_split_length {A} (f : A → bool) (l : list A) :
  length (filter (λ x, f x = true) l) + length (filter (λ x, f x = false) l)
  = length l.
Proof.
  induction l as [|x l IH]; [done|].
  rewrite !filter_cons.
  repeat case_decide; simpl; try lia; destruct (f x); congruence.
Qed.


End ToolsDisplay.

Lemma fstree_ind (P : fstree → Prop) :
  (∀ dirs files, Forall (λ d, P d.2) dirs → P (Folder dirs files)) →
  ∀ tree, P tree.
Proof.
  intros H. fix IH 1. intros [dirs files]. apply H.
  induction dirs as [|[d sub] dirs IHd]; constructor; [apply IH | exact IHd].
Qed.

Lemma for_each_app {W A S} (body : A → S → W → outcome S * W) a b st w :
  for_each body (a ++ b) st w =
  match for_each body a st w with
  | (Ok st', w') => for_each body b st' w'
  | (Raise e, w') => (Raise e, w')
  end.
Proof.
  revert st w. induction a as [|x a IH]; intros st w; simpl; [done|].
  destruct (body x st w) as [[st'|e] w']; [apply IH | done].
Qed.

Section GrowsFacts.
Variable repo_path : pystr * pystr → pystr.

Lemma grows_nil st : grows repo_path [] st st.
Proof. exists [], []. rewrite !app_nil_r. by destruct st. Qed.

Lemma grows_app todo1 todo2 st st1 st2 :
  grows repo_path todo1 st st1 → grows repo_path todo2 st1 st2 →
  grows repo_path (todo1 ++ todo2) st st2.
Proof.
  intros (us1 & es1 & -> & Hl1 & Hs1) (us2 & es2 & -> & Hl2 & Hs2).
  exists (us1 ++ us2), (es1 ++ es2). simpl. split_and!.
  - by rewrite !app_assoc.
  - rewrite !length_app. lia.
  - rewrite fmap_app. by apply sublist_app.
Qed.

Lemma for_each_grows {W A} (body : A → _ → W → _) (f : A → list (pystr * pystr)) :
  (∀ item st w,
     match body item st w with
     | (Ok st', _) => grows repo_path (f item) st st'
     | (Raise e, _) => e = KeyboardInterrupt
     end) →
  ∀ items st w,
    match for_each body items st w with
    | (Ok st', _) => grows repo_path (items ≫= f) st st'
    | (Raise e, _) => e = KeyboardInterrupt
    end.
Proof.
  intros Hbody items. induction items as [|x items IH]; intros st w; simpl.
  - apply grows_nil.
  - specialize (Hbody x st w).
    destruct (body x st w) as [[st1|e] w1]; [|done].
    specialize (IH st1 w1).
    destruct (for_each body items st1 w1) as [[st2|e] w2]; [|done].
    by eapply grows_app.
Qed.

End GrowsFacts.

Section GithubDirectFacts.
Context {W R : Type}.
Variable getenv : pystr → W → option pystr.
Variable path_exists : pystr → W → bool.
Variable path_isdir : pystr → W → bool.
Variable path_join : pystr → pystr → pystr.
Variable relpath : pystr → pystr → pystr.
Variable basename : pystr → pystr.
Variable read_text : pystr → W → outcome pystr.
Variable scan : pystr → W → fstree.
Variable repr_list : list pystr → pystr.
Variable get_repo : pystr → pystr → W → outcome R * W.
Variable get_contents : R → pystr → pystr → W → outcome Contents * W.
Variable update_file :
  R → pystr → pystr → pystr → pystr → pystr → W → outcome unit * W.
Variable create_file :
  R → pystr → pystr → pystr → pystr → W → outcome unit * W.
Variable create_repo : pystr → pystr → bool → pystr → W → outcome pystr * W.
Variable is_GithubException : pystr → bool.

Local Abbreviation quick_push_file :=
  (quick_push_file getenv path_exists basename read_text get_repo
     get_contents update_file create_file is_GithubException).
Local Abbreviation create_github_repo :=
  (create_github_repo getenv create_repo).
Local Abbreviation push_file :=
  (push_file path_join relpath read_text get_contents update_file create_file).
Local Abbreviation push_files :=
  (push_files path_join relpath read_text get_contents update_file
     create_file).
Local Abbreviation push_folder :=
  (push_folder getenv path_exists path_isdir path_join relpath read_text scan
     repr_list get_repo get_contents update_file create_file).
Local Abbreviation repo_path_of := (repo_path_of path_join relpath).
Local Abbreviation pushed_files := (pushed_files path_join).

Lemma error_text_no_exception (e : exn) (w : W) cls msg :
  (error_text e w).1 ≠ Raise (Exception cls msg).
Proof. by destruct e. Qed.

Lemma push_file_grows repository folder_path branch message root file st w :
  match push_file repository folder_path branch message root file st w with
  | (Ok st', _) =>
      grows (repo_path_of folder_path)
            (if hidden file then [] else [(root, file)]) st st'
  | (Raise e, _) => e = KeyboardInterrupt
  end.
Proof.
  unfold push_file. destruct (hidden file); [apply grows_nil|].
  set (repo_path := to_posix _).
  assert (∀ e w',
    match (match e with
           | Exception _ msg =>
               (Ok (st.1, st.2 ++ [repo_path ++ lit ": " ++ msg]), w')
           | KeyboardInterrupt => (Raise KeyboardInterrupt, w')
           end : outcome (list pystr * list pystr) * W) with
    | (Ok st', _) => grows (repo_path_of folder_path) [(root, file)] st st'
    | (Raise e, _) => e = KeyboardInterrupt
    end) as Hfailed.
  { intros [cls msg|] w'; [|done]. eexists [], [_]. rewrite app_nil_r.
    split_and!; [done|done|]. apply sublist_nil_l. }
  destruct (read_text _ w) as [content|e]; [|apply Hfailed].
  destruct (update_or_create _ _ _ _ _ _ _ _ _) as [[[]|e] w'];
    [|apply Hfailed].
  eexists [_], []. rewrite app_nil_r. split_and!; done.
Qed.

Lemma walk_pushed_files root tree :
  walk path_join root tree
    ≫= (λ step, step.2 ≫= λ file,
          if hidden file then [] else [(step.1, file)])
  = pushed_files root tree.
Proof.
  revert root. induction tree as [dirs files IH] using fstree_ind.
  intros root. cbn [walk pushed_files]. rewrite bind_cons. f_equal.
  - cbn [fst snd]. induction files as [|file files IHf]; [done|].
    rewrite bind_cons, filter_cons, IHf.
    by destruct (hidden file).
  - induction dirs as [|[d sub] dirs IHd]; [done|].
    apply Forall_cons in IH as [Hsub IH].
    destruct (hidden d); [by apply IHd|].
    rewrite bind_app, IHd by done. f_equal. apply Hsub.
Qed.

Lemma push_files_grows repository folder_path branch message root tree st w :
  match push_files repository folder_path branch message
          (walk path_join root tree) st w with
  | (Ok st', _) =>
      grows (repo_path_of folder_path) (pushed_files root tree) st st'
  | (Raise e, _) => e = KeyboardInterrupt
  end.
Proof.
  rewrite <- walk_pushed_files. unfold push_files.
  apply (for_each_grows (repo_path_of folder_path)
           (λ step, for_each (push_file repository folder_path branch message
                                step.1) step.2)
           (λ step, step.2 ≫= λ file,
              if hidden file then [] else [(step.1, file)])).
  intros step st0 w0.
  apply (for_each_grows (repo_path_of folder_path)
           (push_file repository folder_path branch message step.1)
           (λ file, if hidden file then [] else [(step.1, file)])).
  intros file st1 w1. apply push_file_grows.
Qed.



End GithubDirectFacts.

